(** * jtos: the boot-time paging code (paging.c)

    A shallow embedding of [paging.c]: the bit-packed page-table entry
    [Pe], the get-or-create walker [get_pm], the per-level mappers
    [map_page_*], the region loop [map_region], the EFI policy
    [map_efi_regions] and the entry point [setup_paging].

    Conventions.
    - A [uint64_t] is a [Z] in [0, 2^64); wrap-around is written [u64].
    - Physical memory is a finite map from the address of an 8-byte cell
      (a page-table entry) to its 64-bit contents, little-endian; a cell
      the map does not hold reads 0, so an arbitrary memory is an
      arbitrary map.
    - The code runs before paging is on: a pointer is a physical address.
    - [serial_print] only feeds the debug port and is left out. *)

From Stdlib Require Import ZArith Lia List Bool.
From stdpp Require Import base option list gmap.

Local Open Scope Z_scope.

(** ** Machine integers *)

Definition u64 (z : Z) : Z := z mod 2 ^ 64.

(** Conversion of a 64-bit value to a C [int] (two's complement, the
    behaviour of the x86-64 compilers the kernel is built with). *)
Definition to_int (z : Z) : Z := (z + 2 ^ 31) mod 2 ^ 32 - 2 ^ 31.

(** ** Constants *)

Definition PAGE_TABLE_SIZE : Z := 512.

(** Modelled from the spec: [PAGE_SIZE] and [PAGE_SIZE_BITS] come from
    address.h, which is not part of the sources at hand; the spec fixes a
    page frame at 4096 bytes and the frame number at [address >> 12]. *)
Definition PAGE_SIZE_BITS : Z := 12.
Definition PAGE_SIZE : Z := 4096.

(** ** Bit-fields

    A bit-field of [width] bits starting at bit [lo] of a 64-bit image. *)

Definition field_get (lo width : Z) (e : Z) : Z :=
  Z.land (Z.shiftr e lo) (Z.ones width).

(** Assignment to a bit-field: the value is cut to the field's width and
    the bits outside the field keep their contents. *)
Definition field_set (lo width : Z) (e v : Z) : Z :=
  Z.lor (Z.land e (Z.lnot (Z.shiftl (Z.ones width) lo)))
        (Z.shiftl (Z.land v (Z.ones width)) lo).

(** ** The page-table entry [Pe]

    [Pe] is a packed struct of bit-fields whose size the source asserts to
    be that of a [uint64_t]; fields are laid out from bit 0 upwards in
    declaration order.  An entry is kept as its 64-bit image. *)

Module Pe.

Definition p         := field_get 0 1.
Definition rw        := field_get 1 1.
Definition us        := field_get 2 1.
Definition pwt       := field_get 3 1.
Definition pcd       := field_get 4 1.
Definition a         := field_get 5 1.
Definition d         := field_get 6 1.
Definition pat_ps    := field_get 7 1.
Definition g         := field_get 8 1.
Definition ignored_0 := field_get 9 3.
Definition phy       := field_get 12 40.
Definition ignored_1 := field_get 52 7.
Definition pk        := field_get 59 4.
Definition xd        := field_get 63 1.

Definition set_p   := field_set 0 1.
Definition set_rw  := field_set 1 1.
Definition set_phy := field_set 12 40.

(** The three assignments of [init_pe], as a function from the old image
    of the entry to the new one. *)
Definition init (pe : Z) (ppa : Z) : Z :=
  let pe := set_phy pe (Z.shiftr ppa PAGE_SIZE_BITS) in
  let pe := set_p pe 1 in
  set_rw pe 1.

(** The two reads [get_pm] makes of an entry: the test [pe->p == 0] and
    the address [pe->phy << PAGE_SIZE_BITS].  [phy] is a bit-field of 40
    bits, and the compiler the kernel is built with (GCC, compiling C)
    gives a bit-field wider than [int] the unsigned type of its width:
    the shift is made in 40 bits and its result is then converted to the
    64-bit pointer, so the bits shifted above bit 39 are lost. *)
Definition is_present (pe : Z) : bool := negb (p pe =? 0).
Definition frame_address (pe : Z) : Z :=
  Z.shiftl (phy pe) PAGE_SIZE_BITS mod 2 ^ 40.

End Pe.

(** ** Linear addresses

    Modelled from the spec: [LinAddr] is declared in address.h, which is
    not part of the sources at hand.  By the spec a linear address splits,
    from the low end, into a 12-bit page offset and four 9-bit indices
    (PT, PD, PDPT, PML4); [linaddr] reinterprets the 64-bit value as that
    struct. *)

Module LinAddr.
Record t : Type := mk { offset : Z; pt : Z; pd : Z; pdpt : Z; pml4 : Z }.
End LinAddr.

Definition linaddr (a : Z) : LinAddr.t :=
  {| LinAddr.offset := field_get 0 12 a;
     LinAddr.pt     := field_get 12 9 a;
     LinAddr.pd     := field_get 21 9 a;
     LinAddr.pdpt   := field_get 30 9 a;
     LinAddr.pml4   := field_get 39 9 a |}.

(** ** Firmware records

    Modelled from the spec: [EFI_MEMORY_DESCRIPTOR], [EfiMemoryMap] and
    [next_md] are declared in efi.h, [Framebuffer] in framebuffer.h; neither
    header is at hand.  The descriptor carries the four members the code
    reads; the memory map is the ordered sequence of descriptors the loop
    of [map_efi_regions] visits. *)

Record EFI_MEMORY_DESCRIPTOR : Type := {
  Type_ : Z;
  PhysicalStart : Z;
  NumberOfPages : Z;
  Attribute : Z
}.

Definition EfiMemoryMap : Type := list EFI_MEMORY_DESCRIPTOR.

Record Framebuffer : Type := { fb_base : Z; fb_size : Z }.

(** ** The machine state

    What the code can change: the memory cells holding page-table entries,
    the state of the page allocator and the register CR3.  [trace] records,
    most recent first, each effect as it happens. *)

Inductive event : Type :=
| EvAlloc (page : Z)
| EvStore (addr val : Z)
| EvCr3 (val : Z).

Record world {Alloc : Type} : Type := World {
  mem : gmap Z Z;
  heap : Alloc;
  cr3 : Z;
  trace : list event
}.
Arguments world : clear implicits.
Arguments World {Alloc} _ _ _ _.

(** A call returns a value in a new state, or the machine halts inside it
    (the allocator has no frame left), or the model runs out of fuel. *)
Inductive outcome (W A : Type) : Type :=
| Done (a : A) (w : W)
| Halted (w : W)
| OutOfFuel.
Arguments Done {W A} _ _.
Arguments Halted {W A} _.
Arguments OutOfFuel {W A}.

Definition M (W A : Type) : Type := W -> outcome W A.

Definition ret {W A} (a : A) : M W A := fun w => Done a w.

Definition bind {W A B} (c : M W A) (k : A -> M W B) : M W B :=
  fun w => match c w with
           | Done a w' => k a w'
           | Halted w' => Halted w'
           | OutOfFuel => OutOfFuel
           end.

Notation "x <- c1 ;; c2" := (bind c1 (fun x => c2))
  (at level 100, c1 at next level, right associativity).
Notation "c1 ;; c2" := (bind c1 (fun _ => c2))
  (at level 100, right associativity).

(** The state an outcome ends in, if it ends. *)
Definition final {W A} (o : outcome W A) : option W :=
  match o with
  | Done _ w => Some w
  | Halted w => Some w
  | OutOfFuel => None
  end.

(** ** Memory *)

Definition load (m : gmap Z Z) (a : Z) : Z := default 0 (m !! a).

(** [&pt[pi]]: entries are 8 bytes wide. *)
Definition pe_addr (pt pi : Z) : Z := pt + 8 * pi.

Definition not_cr3 (ev : event) : Prop :=
  match ev with EvCr3 _ => False | _ => True end.

(** The number of frames the allocator handed out along a trace. *)
Fixpoint count_allocs (tr : list event) : nat :=
  match tr with
  | [] => O
  | EvAlloc _ :: tr => S (count_allocs tr)
  | _ :: tr => count_allocs tr
  end.

(** The frames handed out along a trace, most recent first. *)
Fixpoint allocated (tr : list event) : list Z :=
  match tr with
  | [] => []
  | EvAlloc page :: tr => page :: allocated tr
  | _ :: tr => allocated tr
  end.

(** The turns the loop of [map_region] makes from [vra] for a count [np]:
    the distance to the 64-bit end address, in pages. *)
Definition region_turns (vra np : Z) : Z :=
  Z.max 0 ((u64 (vra + np * PAGE_SIZE) - vra) / PAGE_SIZE).

(** ** A concrete page allocator

    A bump allocator over the frames from its state up to [limit]; it
    serves as the instance at which the theorems below are exercised. *)

Definition bump (limit : Z) (h : Z) : option (Z * Z) :=
  if h + PAGE_SIZE <=? limit then Some (h, h + PAGE_SIZE) else None.

Definition bump_owns (limit : Z) (h : Z) (f : Z) : Prop :=
  h <= f /\ f + PAGE_SIZE <= limit /\ (f - h) mod PAGE_SIZE = 0.

(** ** The code of paging.c *)

Section Paging.

Context {Alloc : Type}.

(** The page allocator of pagealloc.h, with a state of its own: from a
    state it hands out the address of a frame and moves to a new state, or
    it has no frame left ([None]). *)
Variable pgalloc : Alloc -> option (Z * Alloc).

(** The address of the static, page-aligned array [pml4]. *)
Variable pml4 : Z.

(** The constants of efi.h the policy compares with. *)
Variables EFI_MEMORY_RUNTIME EfiLoaderCode EfiLoaderData : Z.

Abbreviation world := (world Alloc).
Abbreviation M := (M world).

Definition read (a : Z) : M Z := fun w => Done (load (mem w) a) w.

Definition write (a v : Z) : M unit := fun w =>
  Done tt (World (<[a := v]> (mem w)) (heap w) (cr3 w) (EvStore a v :: trace w)).

(** Modelled from the spec: [pgalloc] is declared in pagealloc.h and its
    code is not part of the sources at hand.  By the spec a call returns
    the address of one frame, in a state the caller knows nothing about, or
    the allocator is exhausted, which is fatal: the machine halts and no
    error reaches the caller. *)
Definition call_pgalloc : M Z := fun w =>
  match pgalloc (heap w) with
  | None => Halted w
  | Some (page, h) =>
      Done page (World (mem w) h (cr3 w) (EvAlloc page :: trace w))
  end.

Definition read_cr3 : M Z := fun w => Done (cr3 w) w.

Definition write_cr3 (value : Z) : M unit := fun w =>
  Done tt (World (mem w) (heap w) value (EvCr3 value :: trace w)).

(** The three bit-field assignments of [init_pe], made on the entry at
    address [pe] and stored as one 64-bit cell. *)
Definition init_pe (pe : Z) (ppa : Z) : M unit :=
  e <- read pe ;;
  write pe (Pe.init e ppa).

(** get page map *)
Definition get_pm (pt : Z) (pi : Z) : M Z :=
  let pe := pe_addr pt pi in
  e <- read pe ;;
  if Pe.p e =? 0 then
    page <- call_pgalloc ;;
    init_pe pe page ;;
    ret page
  else
    ret (Pe.frame_address e).

Definition map_page_pt (pt vpa ppa : Z) : M unit :=
  let pe := pe_addr pt (LinAddr.pt (linaddr vpa)) in
  init_pe pe ppa.

Definition map_page_pd (pd vpa ppa : Z) : M unit :=
  pt <- get_pm pd (LinAddr.pd (linaddr vpa)) ;;
  map_page_pt pt vpa ppa.

Definition map_page_pdpt (pdpt vpa ppa : Z) : M unit :=
  pd <- get_pm pdpt (LinAddr.pdpt (linaddr vpa)) ;;
  map_page_pd pd vpa ppa.

Definition map_page_pml4 (pml4 vpa ppa : Z) : M unit :=
  pdpt <- get_pm pml4 (LinAddr.pml4 (linaddr vpa)) ;;
  map_page_pdpt pdpt vpa ppa.

(** The loop of [map_region]; [vra] and [pra] are [uint64_t] and wrap. *)
Fixpoint map_region_loop (fuel : nat) (vra vrae pra : Z) : M unit :=
  match fuel with
  | O => fun _ => OutOfFuel
  | S fuel =>
      if vra <? vrae then
        map_page_pml4 pml4 vra pra ;;
        map_region_loop fuel (u64 (vra + PAGE_SIZE)) vrae (u64 (pra + PAGE_SIZE))
      else ret tt
  end.

(** [np] is a C [int]; the end address is computed in 64 bits. *)
Definition map_region (fuel : nat) (vra pra np : Z) : M unit :=
  let vrae := u64 (vra + np * PAGE_SIZE) in
  map_region_loop fuel vra vrae pra.

Definition map_region_id (fuel : nat) (a np : Z) : M unit :=
  map_region fuel a a np.

Definition enable_paging : M unit := write_cr3 (u64 pml4).

Definition map_efi_region (fuel : nat) (md : EFI_MEMORY_DESCRIPTOR) : M unit :=
  if negb (Z.land (Attribute md) EFI_MEMORY_RUNTIME =? 0) then
    map_region_id fuel (PhysicalStart md) (to_int (NumberOfPages md))
  else if Type_ md =? EfiLoaderCode then
    map_region_id fuel (PhysicalStart md) (to_int (NumberOfPages md))
  else if Type_ md =? EfiLoaderData then
    map_region_id fuel (PhysicalStart md) (to_int (NumberOfPages md))
  else ret tt.

Fixpoint map_efi_regions (fuel : nat) (mm : EfiMemoryMap) : M unit :=
  match mm with
  | [] => ret tt
  | md :: mm => map_efi_region fuel md ;; map_efi_regions fuel mm
  end.

Definition map_framebuffer (fuel : nat) (fb : Framebuffer) : M unit :=
  let fbb := fb_base fb in
  map_region_id fuel fbb (to_int (fb_size fb / PAGE_SIZE + 1)).

Definition map_kernel (fuel : nat) (kernel_va kernel_pa kernel_size : Z) : M unit :=
  map_region fuel kernel_va kernel_pa (to_int (Z.shiftr kernel_size PAGE_SIZE_BITS)).

(** Bytes.  Memory is kept in 8-byte cells, and the cells are those of
    the page-table entries: the array [pml4] is page-aligned, so they lie
    at the addresses [pml4 + 8 k].  The byte at address [a] is byte
    [lane_of a] (counted from the low end) of the cell at [cell_of a]. *)
Definition lane_of (a : Z) : Z := (a - pml4) mod 8.
Definition cell_of (a : Z) : Z := a - lane_of a.

Definition byte_at (m : gmap Z Z) (a : Z) : Z :=
  field_get (8 * lane_of a) 8 (load m (cell_of a)).

(** [*d = e] for a [uint8_t *d]: the value is cut to a byte, the other
    seven bytes of the cell keep their contents. *)
Definition write_byte (d : Z) (e : Z) : M unit :=
  c <- read (cell_of d) ;;
  write (cell_of d) (field_set (8 * lane_of d) 8 (u64 c) e).

(** The loop of [memset]: [n] bytes from [d] on, one at a time. *)
Fixpoint memset_loop (n : nat) (d : Z) (e : Z) : M unit :=
  match n with
  | O => ret tt
  | S n => write_byte d e ;; memset_loop n (d + 1) e
  end.

(** [len] is an [unsigned long], a number of bytes. *)
Definition memset (dest e len : Z) : M Z :=
  memset_loop (Z.to_nat len) dest e ;;
  ret dest.

Definition setup_paging (fuel : nat)
    (mm : EfiMemoryMap) (fb : Framebuffer) (kernel_pa kernel_va : Z) : M unit :=
  memset pml4 0 (PAGE_TABLE_SIZE * 8) ;;
  map_efi_regions fuel mm ;;
  enable_paging.

(** ** The walk the processor makes

    Modelled from the spec: the four-level walk is done by the hardware,
    not by paging.c.  From a table [t], [descend] follows a list of
    indices through Present entries; [translate] is the walk of a linear
    address from the root, ending in the frame address of the leaf.  The
    processor takes the frame-number field of an entry as bits 12 to 51
    of a physical address ([frame_base]). *)

Definition frame_base (e : Z) : Z := Z.shiftl (Pe.phy e) PAGE_SIZE_BITS.

Definition step (m : gmap Z Z) (t i : Z) : option Z :=
  let e := load m (pe_addr t i) in
  if Pe.is_present e then Some (frame_base e) else None.

Fixpoint descend (m : gmap Z Z) (t : Z) (path : list Z) : option Z :=
  match path with
  | [] => Some t
  | i :: path =>
      match step m t i with
      | Some t' => descend m t' path
      | None => None
      end
  end.

Definition indices (va : Z) : list Z :=
  let la := linaddr va in
  [LinAddr.pml4 la; LinAddr.pdpt la; LinAddr.pd la; LinAddr.pt la].

Definition translate (w : world) (va : Z) : option Z :=
  descend (mem w) pml4 (indices va).

(** ** Well-formed states *)

Definition valid_path (path : list Z) : Prop :=
  Forall (fun i => 0 <= i < PAGE_TABLE_SIZE) path.

(** A frame that can hold a table: page-aligned and below [2^40], the
    addresses that [get_pm] reads back from an entry as they were stored. *)
Definition frame_ok (f : Z) : Prop :=
  0 <= f < 2 ^ 40 /\ f mod PAGE_SIZE = 0.

Definition zero_frame (m : gmap Z Z) (f : Z) : Prop :=
  forall i, 0 <= i < PAGE_TABLE_SIZE -> load m (pe_addr f i) = 0.

(** The frames the allocator may still hand out. *)
Variable owns : Alloc -> Z -> Prop.

(** The tables reachable from the root form a tree (no table is reached
    by two index paths), every frame the allocator may still hand out is
    a proper frame, zero-filled and not yet a table, and every table
    below the root lies below [2^40]. *)
Record wf (w : world) : Prop := {
  wf_root : 0 <= pml4 /\ pml4 mod PAGE_SIZE = 0;
  wf_tree : forall p q t,
    valid_path p -> valid_path q ->
    (length p <= 3)%nat -> (length q <= 3)%nat ->
    descend (mem w) pml4 p = Some t -> descend (mem w) pml4 q = Some t ->
    p = q;
  wf_free_ok : forall f, owns (heap w) f -> frame_ok f;
  wf_free_fresh : forall f p,
    owns (heap w) f -> valid_path p -> (length p <= 3)%nat ->
    descend (mem w) pml4 p <> Some f;
  wf_free_zero : forall f, owns (heap w) f -> zero_frame (mem w) f;
  wf_low : forall p t,
    valid_path p -> (1 <= length p <= 3)%nat ->
    descend (mem w) pml4 p = Some t -> t < 2 ^ 40
}.

(** Every table below the root was handed out by the allocator. *)
Definition links_allocated (w : world) : Prop :=
  forall p t,
    valid_path p -> (1 <= length p <= 3)%nat ->
    descend (mem w) pml4 p = Some t -> In (EvAlloc t) (trace w).

(** The contract of the allocator: a frame handed out was owned, is
    owned no more, and nothing new becomes owned. *)
Definition alloc_contract : Prop :=
  forall h f h', pgalloc h = Some (f, h') ->
    owns h f /\ ~ owns h' f /\ (forall g, owns h' g -> owns h g).

(** Full walks agree in two states; all of them, or all but those of the
    index paths in [touched]. *)
Definition same_walks_but (touched : list Z -> Prop) (w w' : world) : Prop :=
  forall q, valid_path q -> length q = 4%nat -> ~ touched q ->
    descend (mem w') pml4 q = descend (mem w) pml4 q.

Definition same_walks : world -> world -> Prop :=
  same_walks_but (fun _ => False).

(** CR3 is as before and no event since then is a write to it. *)
Definition quiet (w w' : world) : Prop :=
  cr3 w' = cr3 w
  /\ exists evs, trace w' = evs ++ trace w
       /\ Forall not_cr3 evs.

(** What one call of a page mapper achieves from a well-formed state
    [w]: it returns with the walk of the index path [q] ending in the
    frame given by a fresh leaf entry for [ppa] and every other walk as
    before, or the machine halts in the allocator with all walks as
    before; the tables stay well formed either way. *)
Definition page_mapped (c : M unit) (w : world) (q : list Z) (ppa : Z) : Prop :=
  (exists w' e,
      c w = Done tt w'
      /\ wf w' /\ (links_allocated w -> links_allocated w')
      /\ same_walks_but (eq q) w w'
      /\ descend (mem w') pml4 q = Some (frame_base (Pe.init e ppa)))
  \/ (exists w',
      c w = Halted w'
      /\ wf w' /\ (links_allocated w -> links_allocated w')
      /\ same_walks w w'
      /\ pgalloc (heap w') = None).

(** An outcome keeps the tables in order: the state it ends in is well
    formed, its tables are still all allocated ones, and a halt is a halt
    of the exhausted allocator. *)
Definition kept {A : Type} (w : world) (o : outcome world A) : Prop :=
  match o with
  | Done _ w' => wf w' /\ (links_allocated w -> links_allocated w')
  | Halted w' =>
      wf w' /\ (links_allocated w -> links_allocated w')
      /\ pgalloc (heap w') = None
  | OutOfFuel => True
  end.

(** The index paths of the [n] pages from [vra] on. *)
Definition region_paths (vra : Z) (n : Z) (q : list Z) : Prop :=
  exists k, 0 <= k < n /\ q = indices (vra + k * PAGE_SIZE).

(** A computation that leaves CR3 alone, whatever state it starts in. *)
Definition quietly {A : Type} (c : M A) : Prop :=
  forall w w', final (c w) = Some w' -> quiet w w'.

(** A computation that needs no fuel. *)
Definition returns {A : Type} (c : M A) : Prop :=
  forall w, c w <> OutOfFuel.

(** Whether the policy maps the region of a descriptor. *)
Definition selected (md : EFI_MEMORY_DESCRIPTOR) : bool :=
  negb (Z.land (Attribute md) EFI_MEMORY_RUNTIME =? 0)
  || (Type_ md =? EfiLoaderCode) || (Type_ md =? EfiLoaderData).

Definition in_region (md : EFI_MEMORY_DESCRIPTOR) (a : Z) : Prop :=
  PhysicalStart md <= a < PhysicalStart md + NumberOfPages md * PAGE_SIZE.

(** A descriptor the code handles as meant: a page-aligned region below
    [2^48] whose page count fits a C [int]. *)
Definition sane (md : EFI_MEMORY_DESCRIPTOR) : Prop :=
  0 <= PhysicalStart md /\ PhysicalStart md mod PAGE_SIZE = 0
  /\ 0 <= NumberOfPages md < 2 ^ 31
  /\ PhysicalStart md + NumberOfPages md * PAGE_SIZE <= 2 ^ 48.

(** The addresses inside a region of the memory map that the policy maps. *)
Definition covered (mm : EfiMemoryMap) (a : Z) : Prop :=
  exists md, In md mm /\ selected md = true /\ in_region md a.

(** Below [2^48], exactly the addresses in [R] translate, each to its own
    page. *)
Definition maps_exactly (R : Z -> Prop) (w : world) : Prop :=
  forall va, 0 <= va < 2 ^ 48 ->
    (R va -> translate w va = Some (va - va mod PAGE_SIZE))
    /\ (~ R va -> translate w va = None).

(** The state [setup_paging] may be entered in: the root is page-aligned
    and every frame the allocator may hand out is a proper frame, is not
    the root and is zero-filled. *)
Definition boot_ok (w : world) : Prop :=
  (0 <= pml4 /\ pml4 mod PAGE_SIZE = 0)
  /\ forall f, owns (heap w) f ->
       frame_ok f /\ f <> pml4 /\ zero_frame (mem w) f.

(** A store into the root table. *)
Definition root_store (ev : event) : Prop :=
  match ev with
  | EvStore a _ => pml4 <= a < pml4 + PAGE_TABLE_SIZE * 8
  | _ => False
  end.

(** A computation that halts only in the exhausted allocator. *)
Definition halts_exhausted {A : Type} (c : M A) : Prop :=
  forall w w', c w = Halted w' -> pgalloc (heap w') = None.

(** ** Further notions *)

(** The eleven fields of an entry that [init_pe] does not assign. *)
Definition pe_other_fields (e : Z) : list Z :=
  [Pe.us e; Pe.pwt e; Pe.pcd e; Pe.a e; Pe.d e; Pe.pat_ps e; Pe.g e;
   Pe.ignored_0 e; Pe.ignored_1 e; Pe.pk e; Pe.xd e].

(** Every memory cell is as before or was initialised by [init_pe]. *)
Definition reinit (w w' : world) : Prop :=
  forall a,
    load (mem w') a = load (mem w) a
    \/ exists A, load (mem w') a = Pe.init (load (mem w) a) A.

(** A computation all of whose final states are related to its initial
    state by [R]. *)
Definition respects {A : Type} (R : world -> world -> Prop) (c : M A) : Prop :=
  forall w w', final (c w) = Some w' -> R w w'.

(** A computation that calls the allocator at most [k] times. *)
Definition spends {A : Type} (k : nat) (c : M A) : Prop :=
  forall w w', final (c w) = Some w' ->
    (count_allocs (trace w') <= count_allocs (trace w) + k)%nat.

(** ** Proofs *)

(** *** Bit-fields *)

Lemma testbit_ones_nonneg (w n : Z) :
  0 <= w -> 0 <= n -> Z.testbit (Z.ones w) n = (n <? w).
Proof.
  intros Hw Hn. destruct (Z.ltb_spec n w).
  - apply Z.ones_spec_low. lia.
  - apply Z.ones_spec_high. lia.
Qed.

Lemma testbit_field_get (lo w e n : Z) :
  0 <= lo -> 0 <= w -> 0 <= n ->
  Z.testbit (field_get lo w e) n = Z.testbit e (n + lo) && (n <? w).
Proof.
  intros Hlo Hw Hn. unfold field_get.
  rewrite Z.land_spec, Z.shiftr_spec, testbit_ones_nonneg by lia.
  reflexivity.
Qed.

Lemma testbit_field_set (lo w e v n : Z) :
  0 <= lo -> 0 <= w -> 0 <= n ->
  Z.testbit (field_set lo w e v) n =
  if (lo <=? n) && (n <? lo + w) then Z.testbit v (n - lo) else Z.testbit e n.
Proof.
  intros Hlo Hw Hn. unfold field_set.
  rewrite Z.lor_spec, Z.land_spec, Z.lnot_spec by lia.
  rewrite !Z.shiftl_spec by lia.
  rewrite Z.land_spec.
  destruct (Z.leb_spec lo n); simpl.
  - rewrite !testbit_ones_nonneg by lia.
    replace (n - lo <? w) with (n <? lo + w)
      by (destruct (Z.ltb_spec n (lo + w)), (Z.ltb_spec (n - lo) w); lia).
    destruct (n <? lo + w); simpl.
    + rewrite andb_false_r, andb_true_r. reflexivity.
    + rewrite andb_true_r, andb_false_r, orb_false_r. reflexivity.
  - rewrite !(Z.testbit_neg_r _ (n - lo)) by lia.
    simpl. rewrite andb_true_r, orb_false_r. reflexivity.
Qed.

(** Reading back the field just written gives the value cut to the width. *)
Lemma get_set_same (lo w e v : Z) :
  0 <= lo -> 0 <= w -> field_get lo w (field_set lo w e v) = Z.land v (Z.ones w).
Proof.
  intros Hlo Hw. apply Z.bits_inj'. intros n Hn.
  rewrite testbit_field_get, testbit_field_set, Z.land_spec, testbit_ones_nonneg by lia.
  replace (n + lo - lo) with n by lia.
  destruct (Z.ltb_spec n w).
  - replace ((lo <=? n + lo) && (n + lo <? lo + w)) with true; [reflexivity|].
    symmetry. apply andb_true_iff. split; [apply Z.leb_le | apply Z.ltb_lt]; lia.
  - rewrite !andb_false_r. reflexivity.
Qed.

(** A field that does not overlap the written one keeps its value. *)
Lemma get_set_other (lo w lo' w' e v : Z) :
  0 <= lo -> 0 <= w -> 0 <= lo' -> 0 <= w' ->
  lo' + w' <= lo \/ lo + w <= lo' ->
  field_get lo' w' (field_set lo w e v) = field_get lo' w' e.
Proof.
  intros Hlo Hw Hlo' Hw' Hdis. apply Z.bits_inj'. intros n Hn.
  rewrite !testbit_field_get, testbit_field_set by lia.
  destruct (Z.ltb_spec n w'); [|rewrite !andb_false_r; reflexivity].
  replace ((lo <=? n + lo') && (n + lo' <? lo + w)) with false; [reflexivity|].
  symmetry. apply andb_false_iff.
  destruct Hdis; [left; apply Z.leb_gt | right; apply Z.ltb_ge]; lia.
Qed.

Lemma field_get_range (lo w e : Z) :
  0 <= w -> 0 <= field_get lo w e < 2 ^ w.
Proof.
  intros Hw. unfold field_get. rewrite Z.land_ones by lia.
  apply Z.mod_pos_bound. lia.
Qed.

Lemma field_get_div_mod (lo w e : Z) :
  0 <= lo -> 0 <= w -> field_get lo w e = (e / 2 ^ lo) mod 2 ^ w.
Proof.
  intros Hlo Hw. unfold field_get.
  rewrite Z.land_ones, Z.shiftr_div_pow2 by lia. reflexivity.
Qed.

Ltac other_field :=
  repeat (rewrite get_set_other by lia); try reflexivity.

(** *** The entry codec *)

Lemma init_phy (e ppa : Z) :
  Pe.phy (Pe.init e ppa) = (ppa / 4096) mod 2 ^ 40.
Proof.
  unfold Pe.init, Pe.phy, Pe.set_rw, Pe.set_p, Pe.set_phy, PAGE_SIZE_BITS.
  other_field. rewrite get_set_same by lia.
  rewrite Z.land_ones, Z.shiftr_div_pow2 by lia. reflexivity.
Qed.

Lemma init_p (e ppa : Z) : Pe.p (Pe.init e ppa) = 1.
Proof.
  unfold Pe.init, Pe.p, Pe.set_rw, Pe.set_p.
  other_field. rewrite get_set_same by lia. reflexivity.
Qed.

Lemma init_rw (e ppa : Z) : Pe.rw (Pe.init e ppa) = 1.
Proof.
  unfold Pe.init, Pe.rw, Pe.set_rw.
  rewrite get_set_same by lia. reflexivity.
Qed.

Lemma init_present (e ppa : Z) : Pe.is_present (Pe.init e ppa) = true.
Proof. unfold Pe.is_present. rewrite init_p. reflexivity. Qed.

(** The frame the processor reads from an initialised entry. *)
Lemma frame_base_init (e A : Z) :
  frame_base (Pe.init e A) = A mod 2 ^ 52 - A mod PAGE_SIZE.
Proof.
  clear owns. unfold frame_base, PAGE_SIZE_BITS, PAGE_SIZE.
  rewrite init_phy, Z.shiftl_mul_pow2 by lia.
  change (2 ^ 12) with 4096. change (2 ^ 40) with 1099511627776.
  change (2 ^ 52) with 4503599627370496.
  Z.div_mod_to_equations. lia.
Qed.

Lemma init_frame_base (e ppa : Z) :
  0 <= ppa < 2 ^ 52 -> ppa mod PAGE_SIZE = 0 ->
  frame_base (Pe.init e ppa) = ppa.
Proof.
  intros Hr Ha. rewrite frame_base_init, Ha, Z.mod_small by assumption. lia.
Qed.

Lemma frame_base_aligned (e : Z) :
  0 <= frame_base e < 2 ^ 52 /\ frame_base e mod PAGE_SIZE = 0.
Proof.
  unfold frame_base, PAGE_SIZE_BITS, PAGE_SIZE, Pe.phy.
  pose proof (field_get_range 12 40 e ltac:(lia)) as Hr.
  rewrite Z.shiftl_mul_pow2 by lia.
  change (2 ^ 12) with 4096.
  split; [lia|]. apply Z.mod_mul. lia.
Qed.

(** The address [get_pm] reads from an entry is the frame the processor
    reads from it, cut to 40 bits. *)
Lemma frame_address_cut (e : Z) :
  Pe.frame_address e = frame_base e mod 2 ^ 40.
Proof. reflexivity. Qed.

Lemma frame_address_low (e : Z) :
  frame_base e < 2 ^ 40 -> Pe.frame_address e = frame_base e.
Proof.
  intros Hl. rewrite frame_address_cut. apply Z.mod_small.
  pose proof (frame_base_aligned e). lia.
Qed.

Lemma frame_address_aligned (e : Z) :
  0 <= Pe.frame_address e < 2 ^ 40 /\ Pe.frame_address e mod PAGE_SIZE = 0.
Proof.
  clear owns. rewrite frame_address_cut.
  destruct (frame_base_aligned e) as [Hr Ha]. revert Hr Ha.
  generalize (frame_base e). intros x Hr Ha. unfold PAGE_SIZE in *.
  change (2 ^ 40) with 1099511627776.
  Z.div_mod_to_equations. lia.
Qed.

Lemma frame_address_init (e A : Z) :
  Pe.frame_address (Pe.init e A) = A mod 2 ^ 40 - A mod PAGE_SIZE.
Proof.
  clear owns. rewrite frame_address_cut, frame_base_init. unfold PAGE_SIZE.
  change (2 ^ 40) with 1099511627776. change (2 ^ 52) with 4503599627370496.
  Z.div_mod_to_equations. lia.
Qed.

Lemma init_frame_address (e ppa : Z) :
  0 <= ppa < 2 ^ 40 -> ppa mod PAGE_SIZE = 0 ->
  Pe.frame_address (Pe.init e ppa) = ppa.
Proof.
  intros Hr Ha. rewrite frame_address_init, Ha, Z.mod_small by assumption. lia.
Qed.

(** C7 (amended). For every entry and every address, [init_pe] sets the
    frame-number field to the low 40 bits of [A >> 12], sets Present and
    Read/Write to 1 and leaves every other field as it was; on a zero
    entry the other fields are therefore zero. *)
Theorem init_pe_fields (e A : Z) :
  Pe.phy (Pe.init e A) = Z.shiftr A 12 mod 2 ^ 40
  /\ Pe.p (Pe.init e A) = 1
  /\ Pe.rw (Pe.init e A) = 1
  /\ Pe.us (Pe.init e A) = Pe.us e
  /\ Pe.pwt (Pe.init e A) = Pe.pwt e
  /\ Pe.pcd (Pe.init e A) = Pe.pcd e
  /\ Pe.a (Pe.init e A) = Pe.a e
  /\ Pe.d (Pe.init e A) = Pe.d e
  /\ Pe.pat_ps (Pe.init e A) = Pe.pat_ps e
  /\ Pe.g (Pe.init e A) = Pe.g e
  /\ Pe.ignored_0 (Pe.init e A) = Pe.ignored_0 e
  /\ Pe.ignored_1 (Pe.init e A) = Pe.ignored_1 e
  /\ Pe.pk (Pe.init e A) = Pe.pk e
  /\ Pe.xd (Pe.init e A) = Pe.xd e
  /\ Pe.init 0 A = Z.shiftl (Z.shiftr A 12 mod 2 ^ 40) 12 + 3.
Proof.
  split; [rewrite init_phy, Z.shiftr_div_pow2 by lia; reflexivity|].
  split; [apply init_p|]. split; [apply init_rw|].
  unfold Pe.init, Pe.us, Pe.pwt, Pe.pcd, Pe.a, Pe.d, Pe.pat_ps, Pe.g,
    Pe.ignored_0, Pe.ignored_1, Pe.pk, Pe.xd, Pe.set_rw, Pe.set_p, Pe.set_phy.
  repeat (split; [solve [other_field]|]).
  set (f := Z.shiftr A 12 mod 2 ^ 40).
  assert (H3 : forall k, 2 <= k -> Z.testbit 3 k = false)
    by (intros k Hk; apply (Z.bits_above_log2 3 k); simpl; lia).
  assert (H1 : forall k, 1 <= k -> Z.testbit 1 k = false)
    by (intros k Hk; apply (Z.bits_above_log2 1 k); simpl; lia).
  assert (Hland : Z.land (Z.shiftl f 12) 3 = 0).
  { apply Z.bits_inj'. intros k Hk. rewrite Z.land_spec, Z.bits_0.
    destruct (Z.ltb_spec k 12).
    - rewrite Z.shiftl_spec_low by lia. reflexivity.
    - rewrite H3 by lia. apply andb_false_r. }
  rewrite Z.add_nocarry_lxor, Z.lxor_lor by exact Hland.
  apply Z.bits_inj'. intros n Hn.
  rewrite !testbit_field_set by lia.
  rewrite Z.lor_spec, Z.shiftl_spec, Z.bits_0 by lia.
  unfold f. rewrite Z.testbit_mod_pow2 by lia.
  destruct (Z.eq_dec n 0) as [->|]; [reflexivity|].
  destruct (Z.eq_dec n 1) as [->|]; [reflexivity|].
  rewrite H3 by lia. rewrite orb_false_r.
  destruct (Z.leb_spec 1 n); [|lia].
  destruct (Z.ltb_spec n (1 + 1)); [lia|].
  destruct (Z.leb_spec 0 n); [|lia].
  destruct (Z.ltb_spec n (0 + 1)); [lia|]. simpl.
  destruct (Z.leb_spec 12 n); simpl.
  - destruct (Z.ltb_spec n (12 + 40)), (Z.ltb_spec (n - 12) 40); try lia; reflexivity.
  - rewrite (Z.testbit_neg_r _ (n - 12)) by lia. symmetry. apply andb_false_r.
Qed.

(** *** The walker [get_pm] *)

Lemma get_pm_hit (pt pi : Z) (w : world) :
  Pe.is_present (load (mem w) (pe_addr pt pi)) = true ->
  get_pm pt pi w = Done (Pe.frame_address (load (mem w) (pe_addr pt pi))) w.
Proof.
  unfold Pe.is_present, get_pm, bind, read, ret. intros Hp.
  destruct (Pe.p (load (mem w) (pe_addr pt pi)) =? 0); [discriminate|reflexivity].
Qed.

Lemma get_pm_miss (pt pi : Z) (w : world) (page : Z) (h : Alloc) :
  Pe.is_present (load (mem w) (pe_addr pt pi)) = false ->
  pgalloc (heap w) = Some (page, h) ->
  get_pm pt pi w =
  Done page
    (World (<[pe_addr pt pi := Pe.init (load (mem w) (pe_addr pt pi)) page]> (mem w))
           h (cr3 w)
           (EvStore (pe_addr pt pi) (Pe.init (load (mem w) (pe_addr pt pi)) page)
              :: EvAlloc page :: trace w)).
Proof.
  unfold Pe.is_present, get_pm, init_pe, call_pgalloc, bind, read, write, ret.
  intros Hp Ha.
  destruct (Pe.p (load (mem w) (pe_addr pt pi)) =? 0); [|discriminate].
  rewrite Ha. reflexivity.
Qed.

Lemma get_pm_halt (pt pi : Z) (w : world) :
  Pe.is_present (load (mem w) (pe_addr pt pi)) = false ->
  pgalloc (heap w) = None ->
  get_pm pt pi w = Halted w.
Proof.
  unfold Pe.is_present, get_pm, init_pe, call_pgalloc, bind, read, write, ret.
  intros Hp Ha.
  destruct (Pe.p (load (mem w) (pe_addr pt pi)) =? 0); [|discriminate].
  rewrite Ha. reflexivity.
Qed.

Lemma load_insert_same (m : gmap Z Z) (a v : Z) : load (<[a := v]> m) a = v.
Proof. unfold load. rewrite lookup_insert_eq. reflexivity. Qed.

Lemma load_insert_other (m : gmap Z Z) (a b v : Z) :
  a <> b -> load (<[a := v]> m) b = load m b.
Proof. intros Hne. unfold load. rewrite lookup_insert_ne by assumption. reflexivity. Qed.

(** X25. On a Present entry the walker leaves the whole state as it was
    (no store, no allocation, no event) and returns the entry's
    frame-number field shifted left by 12 in 40 bits: the field's low 28
    bits, as a page address. *)
Theorem get_pm_present_pure (pt pi : Z) (w : world) :
  Pe.is_present (load (mem w) (pe_addr pt pi)) = true ->
  get_pm pt pi w =
  Done ((Pe.phy (load (mem w) (pe_addr pt pi)) mod 2 ^ 28) * PAGE_SIZE) w.
Proof.
  clear owns. intros Hp. rewrite get_pm_hit by assumption. f_equal.
  unfold Pe.frame_address, PAGE_SIZE_BITS, PAGE_SIZE.
  rewrite Z.shiftl_mul_pow2 by lia.
  pose proof (field_get_range 12 40 (load (mem w) (pe_addr pt pi)) ltac:(lia)) as Hr.
  fold Pe.phy in Hr. revert Hr.
  generalize (Pe.phy (load (mem w) (pe_addr pt pi))). intros x Hr.
  change (2 ^ 12) with 4096. change (2 ^ 40) with 1099511627776 in *.
  change (2 ^ 28) with 268435456.
  Z.div_mod_to_equations. lia.
Qed.

(** X26. The walker is idempotent on frames below [2^40]: when a first
    call on an absent entry returns a page-aligned address below [2^40],
    a second call with the same table and index returns the same address
    and changes nothing; over both calls the allocator is called exactly
    once. *)
Theorem get_pm_idempotent (pt pi : Z) (w w1 : world) (page : Z) :
  Pe.is_present (load (mem w) (pe_addr pt pi)) = false ->
  get_pm pt pi w = Done page w1 ->
  frame_ok page ->
  get_pm pt pi w1 = Done page w1
  /\ pgalloc (heap w) = Some (page, heap w1)
  /\ count_allocs (trace w1) = S (count_allocs (trace w)).
Proof.
  intros Hp Hrun [Hr Hal].
  destruct (pgalloc (heap w)) as [[f h]|] eqn:Ha.
  - rewrite (get_pm_miss _ _ _ _ _ Hp Ha) in Hrun.
    injection Hrun as <- <-. simpl.
    split; [|split; reflexivity].
    rewrite get_pm_hit; simpl; rewrite load_insert_same.
    + rewrite init_frame_address by assumption. reflexivity.
    + apply init_present.
  - rewrite (get_pm_halt _ _ _ Hp Ha) in Hrun. discriminate.
Qed.

(** *** Index paths through the tables *)

Lemma descend_snoc (m : gmap Z Z) (t : Z) (p : list Z) (j : Z) :
  descend m t (p ++ [j]) =
  match descend m t p with Some t' => step m t' j | None => None end.
Proof.
  revert t. induction p as [|i p IH]; intros t; simpl.
  - destruct (step m t j); reflexivity.
  - destruct (step m t i); [apply IH | reflexivity].
Qed.

Lemma step_aligned (m : gmap Z Z) (t i t' : Z) :
  step m t i = Some t' -> 0 <= t' /\ t' mod PAGE_SIZE = 0.
Proof.
  unfold step. destruct (Pe.is_present _); [|discriminate].
  intros [= <-]. pose proof (frame_base_aligned (load m (pe_addr t i))). lia.
Qed.

Lemma descend_aligned (m : gmap Z Z) (p : list Z) (t t' : Z) :
  0 <= t /\ t mod PAGE_SIZE = 0 ->
  descend m t p = Some t' -> 0 <= t' /\ t' mod PAGE_SIZE = 0.
Proof.
  revert t. induction p as [|i p IH]; intros t Ht; simpl.
  - intros [= <-]. assumption.
  - destruct (step m t i) as [t1|] eqn:Hs; [|discriminate].
    apply IH. eapply step_aligned; eassumption.
Qed.

(** Entries of page-aligned tables do not overlap. *)
Lemma pe_addr_inj (t i t' i' : Z) :
  t mod PAGE_SIZE = 0 -> t' mod PAGE_SIZE = 0 ->
  0 <= i < PAGE_TABLE_SIZE -> 0 <= i' < PAGE_TABLE_SIZE ->
  pe_addr t i = pe_addr t' i' -> t = t' /\ i = i'.
Proof.
  unfold pe_addr, PAGE_SIZE, PAGE_TABLE_SIZE. intros Ht Ht' Hi Hi' Heq.
  apply Z.mod_divide in Ht; [|lia]. apply Z.mod_divide in Ht'; [|lia].
  destruct Ht as [a ->], Ht' as [b ->]. lia.
Qed.

Lemma valid_path_snoc (p : list Z) (j : Z) :
  valid_path (p ++ [j]) <-> valid_path p /\ 0 <= j < PAGE_TABLE_SIZE.
Proof.
  unfold valid_path. rewrite Forall_app. rewrite Forall_singleton. reflexivity.
Qed.

Lemma valid_path_nil : valid_path [].
Proof. constructor. Qed.

Lemma valid_path_cons (i : Z) (p : list Z) :
  0 <= i < PAGE_TABLE_SIZE -> valid_path p -> valid_path (i :: p).
Proof. intros Hi Hp. constructor; assumption. Qed.

Ltac valid_path_tac :=
  repeat (apply valid_path_cons; [assumption|]); apply valid_path_nil.

Lemma snoc_inj (p q : list Z) (i j : Z) : p ++ [i] = q ++ [j] -> p = q /\ i = j.
Proof. intros H. apply app_inj_tail in H. exact H. Qed.

Lemma snoc_length_ne (p q : list Z) (i : Z) :
  (length q <= length p)%nat -> q <> p ++ [i].
Proof. intros Hl ->. rewrite length_app in Hl. simpl in Hl. lia. Qed.

(** The effect of one store on every walk.  The cell written is entry [i]
    of a table [t] reached by the path [p]; the value stored is Present.
    When the entry links a new table (the path is short of a full walk),
    the entry was absent and the table it now names is zero-filled and is
    not [t].  Then the walk of [p ++ [i]] ends in the frame the entry
    names and every other walk is as before. *)
Lemma descend_store (m : gmap Z Z) (p : list Z) (t i v : Z) :
  0 <= pml4 /\ pml4 mod PAGE_SIZE = 0 ->
  (forall p q t, valid_path p -> valid_path q ->
     (length p <= 3)%nat -> (length q <= 3)%nat ->
     descend m pml4 p = Some t -> descend m pml4 q = Some t -> p = q) ->
  valid_path p -> (length p <= 3)%nat -> 0 <= i < PAGE_TABLE_SIZE ->
  descend m pml4 p = Some t ->
  Pe.is_present v = true ->
  ((length p <= 2)%nat ->
     step m t i = None /\ frame_base v <> t
     /\ zero_frame m (frame_base v)) ->
  forall q, valid_path q -> (length q <= 4)%nat ->
    descend (<[pe_addr t i := v]> m) pml4 q =
    if decide (q = p ++ [i]) then Some (frame_base v) else descend m pml4 q.
Proof.
  intros Hroot Htree Hp Hlp Hi Hdp Hv Hbelow.
  pose proof (descend_aligned _ _ _ _ Hroot Hdp) as Hta.
  induction q as [|j q IH] using rev_ind; intros Hq Hlq.
  - destruct (decide ([] = p ++ [i])) as [E|_]; [|reflexivity].
    destruct p; discriminate E.
  - apply valid_path_snoc in Hq. destruct Hq as [Hq Hj].
    rewrite length_app in Hlq. simpl in Hlq.
    rewrite !descend_snoc, IH by (assumption || lia).
    destruct (decide (q = p ++ [i])) as [Eq|Nq].
    + (* below the new link: the new table is empty *)
      assert (Hl2 : (length p <= 2)%nat)
        by (subst q; rewrite length_app in Hlq; simpl in Hlq; lia).
      destruct (Hbelow Hl2) as (Habs & Hne & Hz).
      destruct (decide (q ++ [j] = p ++ [i])) as [E|_].
      { apply snoc_inj in E. destruct E as [E _]. rewrite E in Eq.
        exfalso. exact (snoc_length_ne p p i (le_n _) Eq). }
      subst q. rewrite descend_snoc, Hdp, Habs.
      unfold step. rewrite load_insert_other.
      * rewrite Hz by assumption. reflexivity.
      * intros E.
        destruct (frame_base_aligned v) as [_ Hfa].
        destruct (pe_addr_inj _ _ _ _ (proj2 Hta) Hfa Hi Hj E) as [E1 _].
        congruence.
    + destruct (descend m pml4 q) as [t'|] eqn:Hdq.
      * pose proof (descend_aligned _ _ _ _ Hroot Hdq) as Hta'.
        destruct (decide (q ++ [j] = p ++ [i])) as [E|N].
        -- apply snoc_inj in E. destruct E as [-> ->].
           assert (t' = t) by congruence. subst t'.
           unfold step. rewrite load_insert_same, Hv. reflexivity.
        -- unfold step. rewrite load_insert_other; [reflexivity|].
           intros E.
           destruct (pe_addr_inj _ _ _ _ (proj2 Hta) (proj2 Hta') Hi Hj E) as [E1 E2].
           subst t' j. apply N. f_equal.
           eapply Htree; try eassumption. lia.
      * destruct (decide (q ++ [j] = p ++ [i])) as [E|_]; [|reflexivity].
        apply snoc_inj in E. destruct E as [-> _]. congruence.
Qed.

(** *** The walker keeps the tables well formed *)

Lemma same_walks_refl (w : world) : same_walks w w.
Proof. intros q _ _ _. reflexivity. Qed.

Lemma get_pm_spec (w : world) (p : list Z) (t i : Z) :
  alloc_contract -> wf w ->
  valid_path p -> (length p <= 2)%nat -> 0 <= i < PAGE_TABLE_SIZE ->
  descend (mem w) pml4 p = Some t ->
  (exists c w',
      get_pm t i w = Done c w'
      /\ wf w' /\ (links_allocated w -> links_allocated w')
      /\ same_walks w w'
      /\ descend (mem w') pml4 (p ++ [i]) = Some c)
  \/ (get_pm t i w = Halted w /\ pgalloc (heap w) = None).
Proof.
  intros Hc Hwf Hp Hlp Hi Hdp.
  destruct (Pe.is_present (load (mem w) (pe_addr t i))) eqn:Hpres.
  - left. eexists _, w. split; [apply get_pm_hit; assumption|].
    split; [assumption|]. split; [tauto|]. split; [apply same_walks_refl|].
    assert (Hd : descend (mem w) pml4 (p ++ [i])
                 = Some (frame_base (load (mem w) (pe_addr t i)))).
    { rewrite descend_snoc, Hdp. unfold step. rewrite Hpres. reflexivity. }
    rewrite Hd. f_equal. symmetry. apply frame_address_low.
    apply (wf_low w Hwf (p ++ [i])); [|rewrite length_app; simpl; lia|exact Hd].
    apply valid_path_snoc. split; assumption.
  - destruct (pgalloc (heap w)) as [[f h]|] eqn:Ha.
    2:{ right. split; [apply get_pm_halt; assumption | reflexivity]. }
    left. eexists f, _. split; [apply get_pm_miss; eassumption|].
    destruct (Hc _ _ _ Ha) as (Hown & Hgone & Hsub).
    destruct Hwf as [Hroot Htree Hok Hfresh Hzero Hlow].
    destruct (Hok _ Hown) as [Hfr Hfal].
    pose proof (descend_aligned _ _ _ _ Hroot Hdp) as Hta.
    set (v := Pe.init (load (mem w) (pe_addr t i)) f).
    assert (Hfv : frame_base v = f).
    { apply init_frame_base; [|assumption].
      change (2 ^ 40) with 1099511627776 in Hfr.
      change (2 ^ 52) with 4503599627370496. lia. }
    assert (Hft : f <> t).
    { intros ->. apply (Hfresh t p); (assumption || lia). }
    assert (Hst : forall q, valid_path q -> (length q <= 4)%nat ->
              descend (<[pe_addr t i := v]> (mem w)) pml4 q =
              if decide (q = p ++ [i]) then Some f else descend (mem w) pml4 q).
    { intros q Hq Hlq. rewrite <- Hfv.
      apply descend_store; try assumption; try lia.
      - apply init_present.
      - intros _. rewrite Hfv. split; [|split].
        + unfold step. rewrite Hpres. reflexivity.
        + assumption.
        + apply Hzero. assumption. }
    simpl. split; [constructor; simpl|split; [|split]].
    + assumption.
    + intros p1 q1 x Hp1 Hq1 Hl1 Hl2. rewrite !Hst by (assumption || lia).
      destruct (decide (p1 = p ++ [i])) as [->|N1],
               (decide (q1 = p ++ [i])) as [->|N2]; intros E1 E2.
      * reflexivity.
      * injection E1 as <-. exfalso. apply (Hfresh f q1); assumption.
      * injection E2 as <-. exfalso. apply (Hfresh f p1); assumption.
      * eapply Htree; eassumption.
    + intros g Hg. apply Hok, Hsub, Hg.
    + intros g q Hg Hq Hlq. rewrite Hst by (assumption || lia).
      destruct (decide (q = p ++ [i])) as [->|N].
      * intros [= <-]. contradiction.
      * apply Hfresh; [apply Hsub|..]; assumption.
    + intros g Hg j Hj. rewrite load_insert_other.
      * apply Hzero; [apply Hsub|]; assumption.
      * intros E.
        destruct (pe_addr_inj _ _ _ _ (proj2 Hta) (proj2 (Hok _ (Hsub _ Hg))) Hi Hj E)
          as [E1 _].
        subst g. apply (Hfresh t p); [apply Hsub| |lia|]; assumption.
    + intros q x Hq Hlq. rewrite Hst by (assumption || lia).
      destruct (decide (q = p ++ [i])) as [->|N].
      * intros [= <-]. apply Hfr.
      * apply Hlow; assumption.
    + intros Hl q x Hq Hlq. simpl. rewrite Hst by (assumption || lia).
      destruct (decide (q = p ++ [i])) as [->|N].
      * intros [= <-]. right. left. reflexivity.
      * intros E. right. right. eapply Hl; eassumption.
    + intros q Hq Hlq _. simpl. rewrite Hst by (assumption || lia).
      destruct (decide (q = p ++ [i])) as [->|N]; [|reflexivity].
      rewrite length_app in Hlq. simpl in Hlq. lia.
    + simpl. rewrite Hst.
      * destruct (decide (p ++ [i] = p ++ [i])); [reflexivity|contradiction].
      * apply valid_path_snoc. split; assumption.
      * rewrite length_app. simpl. lia.
Qed.

(** *** Mapping one page *)

Lemma linaddr_indices_valid (va : Z) : valid_path (indices va).
Proof.
  unfold indices, linaddr, valid_path, PAGE_TABLE_SIZE. simpl.
  repeat constructor; try (apply (field_get_range _ 9); lia).
Qed.

Lemma map_page_pt_spec (w : world) (p : list Z) (t vpa ppa : Z) :
  wf w -> valid_path p -> length p = 3%nat ->
  descend (mem w) pml4 p = Some t ->
  page_mapped (map_page_pt t vpa ppa) w (p ++ [LinAddr.pt (linaddr vpa)]) ppa.
Proof.
  intros Hwf Hp Hlp Hdp. left.
  set (i := LinAddr.pt (linaddr vpa)).
  assert (Hi : 0 <= i < PAGE_TABLE_SIZE) by (apply (field_get_range _ 9); lia).
  set (e := load (mem w) (pe_addr t i)).
  eexists _, e. split; [reflexivity|].
  destruct Hwf as [Hroot Htree Hok Hfresh Hzero Hlow].
  pose proof (descend_aligned _ _ _ _ Hroot Hdp) as Hta.
  assert (Hst : forall q, valid_path q -> (length q <= 4)%nat ->
            descend (<[pe_addr t i := Pe.init e ppa]> (mem w)) pml4 q =
            if decide (q = p ++ [i]) then Some (frame_base (Pe.init e ppa))
            else descend (mem w) pml4 q).
  { intros q Hq Hlq. apply descend_store; try assumption; try lia.
    apply init_present. }
  assert (Hshort : forall q, valid_path q -> (length q <= 3)%nat ->
            descend (<[pe_addr t i := Pe.init e ppa]> (mem w)) pml4 q =
            descend (mem w) pml4 q).
  { intros q Hq Hlq. rewrite Hst by (assumption || lia).
    destruct (decide (q = p ++ [i])) as [->|]; [|reflexivity].
    rewrite length_app in Hlq. simpl in Hlq. lia. }
  simpl. split; [constructor; simpl|split; [|split]].
  - assumption.
  - intros p1 q1 x Hp1 Hq1 Hl1 Hl2. rewrite !Hshort by assumption. apply Htree; assumption.
  - assumption.
  - intros g q Hg Hq Hlq. rewrite Hshort by assumption. apply Hfresh; assumption.
  - intros g Hg j Hj. rewrite load_insert_other; [apply Hzero; assumption|].
    intros E.
    destruct (pe_addr_inj _ _ _ _ (proj2 Hta) (proj2 (Hok _ Hg)) Hi Hj E) as [E1 _].
    subst g. apply (Hfresh t p); (assumption || lia).
  - intros q x Hq Hlq. rewrite Hshort by (assumption || lia). apply Hlow; assumption.
  - intros Hl q x Hq Hlq. simpl. rewrite Hshort by (assumption || lia).
    intros E. right. eapply Hl; eassumption.
  - intros q Hq Hlq Hne. simpl. rewrite Hst by (assumption || lia).
    destruct (decide (q = p ++ [i])) as [->|]; [|reflexivity].
    exfalso. apply Hne. reflexivity.
  - simpl. rewrite Hst.
    + destruct (decide (p ++ [i] = p ++ [i])); [reflexivity|contradiction].
    + apply valid_path_snoc. split; assumption.
    + rewrite length_app. simpl. lia.
Qed.

(** A page mapper that first walks one level down with [get_pm]. *)
Lemma page_mapped_bind (w : world) (p : list Z) (t i : Z)
    (k : Z -> M unit) (q : list Z) (ppa : Z) :
  alloc_contract -> wf w ->
  valid_path p -> (length p <= 2)%nat -> 0 <= i < PAGE_TABLE_SIZE ->
  descend (mem w) pml4 p = Some t ->
  (forall c w1, wf w1 -> descend (mem w1) pml4 (p ++ [i]) = Some c ->
     page_mapped (k c) w1 q ppa) ->
  page_mapped (c <- get_pm t i ;; k c) w q ppa.
Proof.
  intros Hc Hwf Hp Hlp Hi Hdp Hk.
  destruct (get_pm_spec w p t i Hc Hwf Hp Hlp Hi Hdp)
    as [(c & w1 & Hrun & Hwf1 & Hl1 & Hs1 & Hd1) | [Hrun Hnone]].
  - destruct (Hk c w1 Hwf1 Hd1)
      as [(w' & e & Hrun' & Hwf' & Hl' & Hs' & Hd')
         | (w' & Hrun' & Hwf' & Hl' & Hs' & Hnone)].
    + left. exists w', e. unfold bind. rewrite Hrun, Hrun'.
      split; [reflexivity|]. split; [assumption|]. split; [tauto|].
      split; [|assumption].
      intros x Hx Hlx Hne. rewrite Hs' by assumption. apply Hs1; tauto.
    + right. exists w'. unfold bind. rewrite Hrun, Hrun'.
      split; [reflexivity|]. split; [assumption|]. split; [tauto|].
      split; [|assumption].
      intros x Hx Hlx Hne. rewrite Hs' by assumption. apply Hs1; tauto.
  - right. exists w. unfold bind. rewrite Hrun.
    split; [reflexivity|]. split; [assumption|]. split; [tauto|].
    split; [apply same_walks_refl|assumption].
Qed.

Lemma map_page_pml4_spec (w : world) (vpa ppa : Z) :
  alloc_contract -> wf w ->
  page_mapped (map_page_pml4 pml4 vpa ppa) w (indices vpa) ppa.
Proof.
  intros Hc Hwf.
  pose proof (linaddr_indices_valid vpa) as Hv. unfold indices in Hv.
  unfold valid_path in Hv.
  apply Forall_cons in Hv. destruct Hv as [H4 Hv].
  apply Forall_cons in Hv. destruct Hv as [H3 Hv].
  apply Forall_cons in Hv. destruct Hv as [H2 _].
  set (i4 := LinAddr.pml4 (linaddr vpa)) in *.
  set (i3 := LinAddr.pdpt (linaddr vpa)) in *.
  set (i2 := LinAddr.pd (linaddr vpa)) in *.
  unfold map_page_pml4. fold i4.
  apply (page_mapped_bind w [] pml4);
    [assumption | assumption | valid_path_tac | simpl; lia | assumption | reflexivity |].
  intros pdpt w1 Hwf1 Hd1. unfold map_page_pdpt. fold i3.
  apply (page_mapped_bind w1 [i4] pdpt);
    [assumption | assumption | valid_path_tac | simpl; lia
    | assumption | exact Hd1 |].
  intros pd w2 Hwf2 Hd2. unfold map_page_pd. fold i2.
  apply (page_mapped_bind w2 [i4; i3] pd);
    [assumption | assumption | valid_path_tac | simpl; lia
    | assumption | exact Hd2 |].
  intros pt w3 Hwf3 Hd3.
  apply (map_page_pt_spec w3 [i4; i3; i2] pt vpa ppa);
    [assumption | valid_path_tac | reflexivity | exact Hd3].
Qed.

(** *** Page numbers and index paths *)

Lemma page_number_split (a : Z) :
  (a / 4096) mod 2 ^ 36 =
  (a / 2 ^ 12) mod 2 ^ 9 + 2 ^ 9 * ((a / 2 ^ 21) mod 2 ^ 9)
  + 2 ^ 18 * ((a / 2 ^ 30) mod 2 ^ 9) + 2 ^ 27 * ((a / 2 ^ 39) mod 2 ^ 9).
Proof.
  change (2 ^ 36) with 68719476736. change (2 ^ 9) with 512.
  change (2 ^ 12) with 4096. change (2 ^ 21) with 2097152.
  change (2 ^ 30) with 1073741824. change (2 ^ 39) with 549755813888.
  change (2 ^ 18) with 262144. change (2 ^ 27) with 134217728.
  Z.div_mod_to_equations. lia.
Qed.

(** The index path of an address is its page number modulo [2^36]. *)
Lemma indices_page (a b : Z) :
  indices a = indices b <-> (a / 4096) mod 2 ^ 36 = (b / 4096) mod 2 ^ 36.
Proof.
  unfold indices, linaddr. simpl.
  rewrite !page_number_split, !field_get_div_mod by lia.
  generalize (Z.mod_pos_bound (a / 2 ^ 12) (2 ^ 9) ltac:(lia)).
  generalize (Z.mod_pos_bound (a / 2 ^ 21) (2 ^ 9) ltac:(lia)).
  generalize (Z.mod_pos_bound (a / 2 ^ 30) (2 ^ 9) ltac:(lia)).
  generalize (Z.mod_pos_bound (a / 2 ^ 39) (2 ^ 9) ltac:(lia)).
  generalize (Z.mod_pos_bound (b / 2 ^ 12) (2 ^ 9) ltac:(lia)).
  generalize (Z.mod_pos_bound (b / 2 ^ 21) (2 ^ 9) ltac:(lia)).
  generalize (Z.mod_pos_bound (b / 2 ^ 30) (2 ^ 9) ltac:(lia)).
  generalize (Z.mod_pos_bound (b / 2 ^ 39) (2 ^ 9) ltac:(lia)).
  generalize ((a / 2 ^ 12) mod 2 ^ 9) ((a / 2 ^ 21) mod 2 ^ 9)
    ((a / 2 ^ 30) mod 2 ^ 9) ((a / 2 ^ 39) mod 2 ^ 9)
    ((b / 2 ^ 12) mod 2 ^ 9) ((b / 2 ^ 21) mod 2 ^ 9)
    ((b / 2 ^ 30) mod 2 ^ 9) ((b / 2 ^ 39) mod 2 ^ 9).
  change (2 ^ 9) with 512. change (2 ^ 18) with 262144.
  change (2 ^ 27) with 134217728.
  intros a1 a2 a3 a4 b1 b2 b3 b4 ? ? ? ? ? ? ? ?.
  split.
  - intros [= E4 E3 E2 E1]. lia.
  - intros E.
    assert (a1 = b1) by lia. assert (a2 = b2) by lia.
    assert (a3 = b3) by lia. assert (a4 = b4) by lia.
    congruence.
Qed.

Lemma indices_distinct (x k k' : Z) :
  0 <= k < 2 ^ 36 -> 0 <= k' < 2 ^ 36 ->
  indices (x + k * PAGE_SIZE) = indices (x + k' * PAGE_SIZE) -> k = k'.
Proof.
  unfold PAGE_SIZE. intros Hk Hk' E. apply indices_page in E.
  rewrite !Z.div_add in E by lia.
  revert Hk Hk' E. change (2 ^ 36) with 68719476736. intros.
  Z.div_mod_to_equations. lia.
Qed.

(** *** Composition of outcomes *)

Lemma kept_bind {A B : Type} (c : M A) (k : A -> M B) (w : world) :
  kept w (c w) ->
  (forall a w1, wf w1 -> kept w1 (k a w1)) ->
  kept w (bind c k w).
Proof.
  unfold bind. intros Hc Hk. destruct (c w) as [a w1|w1|]; simpl in *.
  - destruct Hc as [Hwf Hl]. specialize (Hk a w1 Hwf).
    destruct (k a w1) as [b w2|w2|]; simpl in *; tauto.
  - assumption.
  - exact I.
Qed.

Lemma kept_ret {A : Type} (a : A) (w : world) : wf w -> kept w (ret a w).
Proof. simpl. tauto. Qed.

Lemma map_page_pml4_kept (w : world) (vpa ppa : Z) :
  alloc_contract -> wf w -> kept w (map_page_pml4 pml4 vpa ppa w).
Proof.
  intros Hc Hwf.
  destruct (map_page_pml4_spec w vpa ppa Hc Hwf)
    as [(w' & e & -> & Hwf' & Hl' & _) | (w' & -> & Hwf' & Hl' & _ & Hn)];
    simpl; tauto.
Qed.

Lemma map_region_loop_kept (fuel : nat) (vra vrae pra : Z) (w : world) :
  alloc_contract -> wf w -> kept w (map_region_loop fuel vra vrae pra w).
Proof.
  intros Hc. revert vra pra w.
  induction fuel as [|fuel IH]; intros vra pra w Hwf; simpl; [exact I|].
  destruct (vra <? vrae); [|apply kept_ret; assumption].
  apply kept_bind; [apply map_page_pml4_kept; assumption|].
  intros _ w1 Hwf1. apply IH. assumption.
Qed.

Lemma map_efi_region_kept (fuel : nat) (md : EFI_MEMORY_DESCRIPTOR) (w : world) :
  alloc_contract -> wf w -> kept w (map_efi_region fuel md w).
Proof.
  intros Hc Hwf. unfold map_efi_region, map_region_id, map_region.
  destruct (negb _); [apply map_region_loop_kept; assumption|].
  destruct (_ =? _); [apply map_region_loop_kept; assumption|].
  destruct (_ =? _); [apply map_region_loop_kept; assumption|].
  apply kept_ret. assumption.
Qed.

Lemma map_efi_regions_kept (fuel : nat) (mm : EfiMemoryMap) (w : world) :
  alloc_contract -> wf w -> kept w (map_efi_regions fuel mm w).
Proof.
  intros Hc. revert w. induction mm as [|md mm IH]; intros w Hwf.
  - apply kept_ret. assumption.
  - simpl. apply kept_bind; [apply map_efi_region_kept; assumption|].
    intros _ w1 Hwf1. apply IH. assumption.
Qed.

(** *** The region loop *)

Lemma u64_small (z : Z) : 0 <= z < 2 ^ 64 -> u64 z = z.
Proof. intros H. unfold u64. apply Z.mod_small. assumption. Qed.

Lemma map_region_loop_spec (n : nat) :
  forall (fuel : nat) (vra pra : Z) (w : world),
  alloc_contract -> wf w -> (n < fuel)%nat ->
  0 <= vra -> vra + Z.of_nat n * PAGE_SIZE < 2 ^ 64 ->
  0 <= pra -> pra mod PAGE_SIZE = 0 -> pra + Z.of_nat n * PAGE_SIZE <= 2 ^ 52 ->
  Z.of_nat n <= 2 ^ 36 ->
  (exists w',
      map_region_loop fuel vra (vra + Z.of_nat n * PAGE_SIZE) pra w = Done tt w'
      /\ same_walks_but (region_paths vra (Z.of_nat n)) w w'
      /\ forall k, 0 <= k < Z.of_nat n ->
           translate w' (vra + k * PAGE_SIZE) = Some (pra + k * PAGE_SIZE))
  \/ (exists w',
      map_region_loop fuel vra (vra + Z.of_nat n * PAGE_SIZE) pra w = Halted w'
      /\ same_walks_but (region_paths vra (Z.of_nat n)) w w').
Proof.
  induction n as [|n IH];
    intros fuel vra pra w Hc Hwf Hfuel Hv Hve Hp Hpa Hpe Hn;
    (destruct fuel as [|fuel]; [lia|]); simpl map_region_loop.
  - replace (vra + Z.of_nat 0 * PAGE_SIZE) with vra by lia.
    rewrite Z.ltb_irrefl. left. exists w. split; [reflexivity|].
    split; [intros q _ _ _; reflexivity | intros k Hk; lia].
  - assert (Hlt : (vra <? vra + Z.of_nat (S n) * PAGE_SIZE) = true)
      by (apply Z.ltb_lt; unfold PAGE_SIZE; lia).
    rewrite Hlt. unfold bind.
    destruct (map_page_pml4_spec w vra pra Hc Hwf)
      as [(w1 & e & Hrun & Hwf1 & _ & Hs1 & Hd1) | (w1 & Hrun & _ & _ & Hs1 & _)];
      rewrite Hrun.
    2:{ right. exists w1. split; [reflexivity|].
        intros q Hq Hlq _. apply Hs1; tauto. }
    rewrite (u64_small (vra + PAGE_SIZE)) by (unfold PAGE_SIZE in *; lia).
    rewrite (u64_small (pra + PAGE_SIZE)) by (unfold PAGE_SIZE in *; lia).
    replace (vra + Z.of_nat (S n) * PAGE_SIZE)
      with (vra + PAGE_SIZE + Z.of_nat n * PAGE_SIZE) by lia.
    assert (Hout : forall q, ~ region_paths vra (Z.of_nat (S n)) q ->
              q <> indices vra /\ ~ region_paths (vra + PAGE_SIZE) (Z.of_nat n) q).
    { intros q Hq. split.
      - intros ->. apply Hq. exists 0. split; [lia|]. f_equal. lia.
      - intros (k & Hk & ->). apply Hq. exists (k + 1). split; [lia|].
        f_equal. lia. }
    assert (Hfirst : ~ region_paths (vra + PAGE_SIZE) (Z.of_nat n) (indices vra)).
    { intros (k & Hk & E).
      replace vra with (vra + 0 * PAGE_SIZE) in E at 1 by lia.
      replace (vra + PAGE_SIZE + k * PAGE_SIZE)
        with (vra + (k + 1) * PAGE_SIZE) in E by lia.
      apply indices_distinct in E; lia. }
    destruct (IH fuel (vra + PAGE_SIZE) (pra + PAGE_SIZE) w1)
      as [(w' & Hrun' & Hs' & Ht') | (w' & Hrun' & Hs')];
      try assumption; try (unfold PAGE_SIZE in *; lia).
    { rewrite <- Z.add_mod_idemp_l, Hpa by (unfold PAGE_SIZE; lia). reflexivity. }
    + left. exists w'. split; [assumption|]. split.
      * intros q Hq Hlq Ho. destruct (Hout q Ho) as [Ho1 Ho2].
        rewrite Hs' by assumption. apply Hs1; try assumption. congruence.
      * intros k Hk. destruct (Z.eq_dec k 0) as [->|Hk0].
        -- replace (vra + 0 * PAGE_SIZE) with vra by lia.
           replace (pra + 0 * PAGE_SIZE) with pra by lia.
           unfold translate.
           rewrite Hs'; [| apply linaddr_indices_valid | reflexivity | assumption].
           rewrite Hd1. f_equal. apply init_frame_base; [|assumption].
           unfold PAGE_SIZE in *. lia.
        -- replace (vra + k * PAGE_SIZE)
             with (vra + PAGE_SIZE + (k - 1) * PAGE_SIZE) by lia.
           replace (pra + k * PAGE_SIZE)
             with (pra + PAGE_SIZE + (k - 1) * PAGE_SIZE) by lia.
           apply Ht'. lia.
    + right. exists w'. split; [assumption|].
      intros q Hq Hlq Ho. destruct (Hout q Ho) as [Ho1 Ho2].
      rewrite Hs' by assumption. apply Hs1; try assumption. congruence.
Qed.

(** C1 (amended). From a well-formed state (tables and free frames
    below [2^40], free frames zero-filled) and with an allocator that
    keeps its contract, [map_region fuel V P N] with [0 <= N < 2^31],
    [V + N*4096 < 2^64], [P] page-aligned and [P + N*4096 <= 2^52], given
    more fuel than pages, returns in a state where the walk of every
    [V + i*4096], [i < N], ends in a Present leaf of frame address
    [P + i*4096]; or the machine halts because the allocator is exhausted.
    (The address [V] need not even be aligned.) *)
Theorem map_region_maps (fuel : nat) (V P N : Z) (w : world) :
  alloc_contract -> wf w ->
  0 <= V -> 0 <= P -> P mod PAGE_SIZE = 0 -> 0 <= N < 2 ^ 31 ->
  V + N * PAGE_SIZE < 2 ^ 64 -> P + N * PAGE_SIZE <= 2 ^ 52 ->
  N < Z.of_nat fuel ->
  (exists w',
      map_region fuel V P N w = Done tt w'
      /\ wf w'
      /\ forall i, 0 <= i < N ->
           translate w' (V + i * PAGE_SIZE) = Some (P + i * PAGE_SIZE))
  \/ (exists w',
      map_region fuel V P N w = Halted w' /\ pgalloc (heap w') = None).
Proof.
  intros Hc Hwf HV HP HPa HN HVe HPe Hfuel.
  pose proof (map_region_loop_kept fuel V (V + N * PAGE_SIZE) P w Hc Hwf) as Hk.
  unfold map_region. rewrite u64_small by (unfold PAGE_SIZE in *; lia).
  destruct (map_region_loop_spec (Z.to_nat N) fuel V P w)
    as [(w' & Hrun & _ & Ht) | (w' & Hrun & _)];
    rewrite ?Z2Nat.id by lia; try assumption; try lia.
  - rewrite Z2Nat.id in Hrun, Ht by lia. rewrite Hrun in Hk |- *.
    left. exists w'. split; [reflexivity|]. split; [apply Hk|assumption].
  - rewrite Z2Nat.id in Hrun by lia. rewrite Hrun in Hk |- *.
    right. exists w'. split; [reflexivity|]. apply Hk.
Qed.

(** *** Termination and events *)

Lemma returns_bind {A B : Type} (c : M A) (k : A -> M B) :
  returns c -> (forall a, returns (k a)) -> returns (bind c k).
Proof.
  unfold returns, bind. intros Hc Hk w. specialize (Hc w).
  destruct (c w); [apply Hk | discriminate | contradiction].
Qed.

Lemma get_pm_returns (pt pi : Z) : returns (get_pm pt pi).
Proof.
  intros w. unfold get_pm, init_pe, call_pgalloc, bind, read, write, ret.
  destruct (_ =? 0); [|discriminate].
  destruct (pgalloc (heap w)) as [[page h]|]; discriminate.
Qed.

Lemma map_page_pml4_returns (t vpa ppa : Z) : returns (map_page_pml4 t vpa ppa).
Proof.
  unfold map_page_pml4, map_page_pdpt, map_page_pd, map_page_pt, init_pe.
  repeat (apply returns_bind; [apply get_pm_returns | intros ?]).
  intros w. discriminate.
Qed.

Lemma map_region_loop_returns (d : nat) :
  forall (fuel : nat) (vra vrae pra : Z),
  0 <= vra -> vrae < 2 ^ 64 ->
  vrae <= vra \/ (vrae - vra) mod PAGE_SIZE = 0 ->
  vrae - vra <= Z.of_nat d * PAGE_SIZE -> (d < fuel)%nat ->
  returns (map_region_loop fuel vra vrae pra).
Proof.
  induction d as [|d IH]; intros fuel vra vrae pra Hv He Hm Hd Hfuel;
    (destruct fuel as [|fuel]; [lia|]); simpl map_region_loop.
  - destruct (Z.ltb_spec vra vrae); [unfold PAGE_SIZE in *; lia|].
    intros w. discriminate.
  - destruct (Z.ltb_spec vra vrae); [|intros w; discriminate].
    destruct Hm as [Hm|Hm]; [lia|].
    assert (Hstep : vra + PAGE_SIZE <= vrae).
    { unfold PAGE_SIZE in *. revert Hm. Z.div_mod_to_equations. lia. }
    apply returns_bind; [apply map_page_pml4_returns|]. intros _.
    rewrite (u64_small (vra + PAGE_SIZE)) by (unfold PAGE_SIZE in *; lia).
    apply IH; try (unfold PAGE_SIZE in *; lia).
    right. unfold PAGE_SIZE in *. revert Hm. Z.div_mod_to_equations. lia.
Qed.

(** [map_region] needs at most [2^52] turns of its loop. *)
Lemma map_region_returns (fuel : nat) (vra pra np : Z) :
  0 <= vra < 2 ^ 64 -> 2 ^ 52 < Z.of_nat fuel ->
  returns (map_region fuel vra pra np).
Proof.
  intros Hv Hfuel. unfold map_region.
  assert (Hr : 0 <= u64 (vra + np * PAGE_SIZE) < 2 ^ 64)
    by (apply Z.mod_pos_bound; lia).
  apply (map_region_loop_returns (Z.to_nat (2 ^ 52))).
  - lia.
  - lia.
  - right. unfold u64, PAGE_SIZE in *. clear Hr Hfuel.
    change (2 ^ 64) with 18446744073709551616.
    Z.div_mod_to_equations. lia.
  - rewrite Z2Nat.id by lia. unfold PAGE_SIZE in *.
    change (2 ^ 52) with 4503599627370496.
    change (2 ^ 64) with 18446744073709551616 in *. lia.
  - lia.
Qed.

Lemma quiet_refl (w : world) : quiet w w.
Proof. split; [reflexivity|]. exists []. split; [reflexivity|constructor]. Qed.

Lemma quiet_trans (w1 w2 w3 : world) : quiet w1 w2 -> quiet w2 w3 -> quiet w1 w3.
Proof.
  intros [Hc1 (e1 & Ht1 & Hf1)] [Hc2 (e2 & Ht2 & Hf2)].
  split; [congruence|]. exists (e2 ++ e1).
  split; [rewrite Ht2, Ht1; apply app_assoc | apply Forall_app; split; assumption].
Qed.

Lemma quietly_ret {A : Type} (a : A) : quietly (ret a).
Proof. intros w w' [= <-]. apply quiet_refl. Qed.

Lemma quietly_bind {A B : Type} (c : M A) (k : A -> M B) :
  quietly c -> (forall a, quietly (k a)) -> quietly (bind c k).
Proof.
  unfold quietly, bind. intros Hc Hk w w'. specialize (Hc w).
  destruct (c w) as [a w1|w1|]; simpl in *.
  - intros H. eapply quiet_trans; [apply Hc; reflexivity | eapply Hk; eassumption].
  - apply Hc.
  - discriminate.
Qed.

Lemma quietly_read (a : Z) : quietly (read a).
Proof. intros w w' [= <-]. apply quiet_refl. Qed.

Lemma quietly_write (a v : Z) : quietly (write a v).
Proof.
  intros w w' [= <-]. split; [reflexivity|].
  exists [EvStore a v]. split; [reflexivity|repeat constructor].
Qed.

Lemma quietly_call_pgalloc : quietly call_pgalloc.
Proof.
  intros w w'. unfold call_pgalloc.
  destruct (pgalloc (heap w)) as [[page h]|]; intros [= <-].
  - split; [reflexivity|]. exists [EvAlloc page]. split; [reflexivity|repeat constructor].
  - apply quiet_refl.
Qed.

Ltac quietly_tac :=
  repeat first
    [ apply quietly_ret | apply quietly_read | apply quietly_write
    | apply quietly_call_pgalloc
    | apply quietly_bind; [|intros ?] ].

Lemma quietly_get_pm (pt pi : Z) : quietly (get_pm pt pi).
Proof.
  unfold get_pm, init_pe. apply quietly_bind; [apply quietly_read|]. intros e.
  destruct (_ =? 0); quietly_tac.
Qed.

Lemma quietly_map_page_pml4 (t vpa ppa : Z) : quietly (map_page_pml4 t vpa ppa).
Proof.
  unfold map_page_pml4, map_page_pdpt, map_page_pd, map_page_pt, init_pe.
  repeat (apply quietly_bind; [apply quietly_get_pm | intros ?]).
  quietly_tac.
Qed.

Lemma quietly_map_region_loop (fuel : nat) (vra vrae pra : Z) :
  quietly (map_region_loop fuel vra vrae pra).
Proof.
  revert vra pra. induction fuel as [|fuel IH]; intros vra pra; simpl.
  - intros w w'. discriminate.
  - destruct (vra <? vrae); [|apply quietly_ret].
    apply quietly_bind; [apply quietly_map_page_pml4 | intros _; apply IH].
Qed.

Lemma quietly_map_efi_region (fuel : nat) (md : EFI_MEMORY_DESCRIPTOR) :
  quietly (map_efi_region fuel md).
Proof.
  unfold map_efi_region, map_region_id, map_region.
  destruct (negb _); [apply quietly_map_region_loop|].
  destruct (_ =? _); [apply quietly_map_region_loop|].
  destruct (_ =? _); [apply quietly_map_region_loop|apply quietly_ret].
Qed.

Lemma quietly_map_efi_regions (fuel : nat) (mm : EfiMemoryMap) :
  quietly (map_efi_regions fuel mm).
Proof.
  induction mm as [|md mm IH]; simpl; [apply quietly_ret|].
  apply quietly_bind; [apply quietly_map_efi_region | intros _; apply IH].
Qed.

Lemma map_region_loop_S (fuel : nat) (vra vrae pra : Z) (w : world) :
  vra < vrae ->
  map_region_loop (S fuel) vra vrae pra w =
  bind (map_page_pml4 pml4 vra pra)
       (fun _ => map_region_loop fuel (u64 (vra + PAGE_SIZE)) vrae (u64 (pra + PAGE_SIZE)))
       w.
Proof. intros H. simpl. apply Z.ltb_lt in H. rewrite H. reflexivity. Qed.

(** C10 (amended). With a page count [np <= 0] such that [vra + np*4096]
    does not fall below zero (always so for [np = 0]), [map_region]
    returns at once in the state it was called in: nothing is stored,
    nothing allocated. *)
Theorem map_region_nonpositive (fuel : nat) (vra pra np : Z) (w : world) :
  0 <= vra < 2 ^ 64 -> np <= 0 -> 0 <= vra + np * PAGE_SIZE ->
  (0 < fuel)%nat ->
  map_region fuel vra pra np w = Done tt w.
Proof.
  intros Hv Hnp Hlow Hfuel. unfold map_region.
  destruct fuel as [|fuel]; [lia|]. simpl.
  rewrite u64_small by (unfold PAGE_SIZE in *; lia).
  destruct (Z.ltb_spec vra (vra + np * PAGE_SIZE)); [unfold PAGE_SIZE in *; lia|].
  reflexivity.
Qed.

(** *** Bytes and [memset] *)

Lemma lane_range (a : Z) : 0 <= lane_of a < 8.
Proof. unfold lane_of. apply Z.mod_pos_bound. lia. Qed.

Lemma cell_lane (a : Z) : a = cell_of a + lane_of a.
Proof. unfold cell_of. lia. Qed.

(** The low 64 bits of a cell are all a field below bit 64 sees. *)
Lemma field_get_u64 (lo w e : Z) :
  0 <= lo -> 0 <= w -> lo + w <= 64 ->
  field_get lo w (u64 e) = field_get lo w e.
Proof.
  intros Hlo Hw Hle. apply Z.bits_inj'. intros n Hn.
  rewrite !testbit_field_get by lia. unfold u64.
  destruct (Z.ltb_spec n w); [|rewrite !andb_false_r; reflexivity].
  rewrite Z.mod_pow2_bits_low by lia. reflexivity.
Qed.

Lemma field_set_u64 (lo w e v : Z) :
  0 <= lo -> 0 <= w -> lo + w <= 64 ->
  0 <= field_set lo w (u64 e) v < 2 ^ 64.
Proof.
  intros Hlo Hw Hle.
  assert (E : field_set lo w (u64 e) v = field_set lo w (u64 e) v mod 2 ^ 64).
  { apply Z.bits_inj'. intros n Hn. destruct (Z.ltb_spec n 64).
    - rewrite Z.mod_pow2_bits_low by lia. reflexivity.
    - rewrite Z.mod_pow2_bits_high by lia. rewrite testbit_field_set by lia.
      replace (n <? lo + w) with false by (symmetry; apply Z.ltb_ge; lia).
      rewrite andb_false_r. unfold u64. apply Z.mod_pow2_bits_high. lia. }
  rewrite E. apply Z.mod_pos_bound. lia.
Qed.

(** A 64-bit cell whose eight bytes are zero is zero. *)
Lemma zero_of_bytes (x : Z) :
  0 <= x < 2 ^ 64 ->
  (forall j, 0 <= j < 8 -> field_get (8 * j) 8 x = 0) -> x = 0.
Proof.
  clear owns. intros Hx Hb. apply Z.bits_inj'. intros n Hn. rewrite Z.bits_0.
  destruct (Z.ltb_spec n 64).
  - assert (Hj : 0 <= n / 8 < 8) by (Z.div_mod_to_equations; lia).
    assert (Hr : 0 <= n mod 8 < 8) by (apply Z.mod_pos_bound; lia).
    pose proof (Hb (n / 8) Hj) as E.
    apply (f_equal (fun z => Z.testbit z (n mod 8))) in E.
    rewrite testbit_field_get, Z.bits_0 in E by lia.
    replace (n mod 8 + 8 * (n / 8)) with n in E
      by (rewrite (Z.div_mod n 8) at 1 by lia; lia).
    replace (n mod 8 <? 8) with true in E by (symmetry; apply Z.ltb_lt; lia).
    rewrite andb_true_r in E. exact E.
  - rewrite <- (Z.mod_small x (2 ^ 64)) by assumption.
    apply Z.mod_pow2_bits_high. lia.
Qed.

(** One byte store changes that byte and no other. *)
Lemma byte_at_store (m : gmap Z Z) (d e a : Z) :
  byte_at (<[cell_of d := field_set (8 * lane_of d) 8 (u64 (load m (cell_of d))) e]> m) a
  = if decide (a = d) then e mod 256 else byte_at m a.
Proof.
  pose proof (lane_range d) as Hd. pose proof (lane_range a) as Ha.
  unfold byte_at. destruct (decide (a = d)) as [->|N].
  - rewrite load_insert_same, get_set_same by lia.
    rewrite Z.land_ones by lia. reflexivity.
  - destruct (decide (cell_of a = cell_of d)) as [E|E].
    + assert (Hne : lane_of a <> lane_of d).
      { intros El. apply N. rewrite (cell_lane a), (cell_lane d). congruence. }
      rewrite E, load_insert_same.
      rewrite get_set_other by lia.
      apply field_get_u64; lia.
    + rewrite load_insert_other by congruence. reflexivity.
Qed.

Lemma memset_loop_spec (n : nat) (e : Z) :
  forall (d : Z) (w : world),
  exists w' evs,
    memset_loop n d e w = Done tt w'
    /\ heap w' = heap w /\ cr3 w' = cr3 w
    /\ trace w' = evs ++ trace w /\ length evs = n
    /\ Forall (fun ev => exists b v,
                 ev = EvStore (cell_of b) v /\ d <= b < d + Z.of_nat n) evs
    /\ (forall a, byte_at (mem w') a =
                  if decide (d <= a < d + Z.of_nat n) then e mod 256
                  else byte_at (mem w) a)
    /\ (forall c, (forall b, d <= b < d + Z.of_nat n -> cell_of b <> c) ->
                  load (mem w') c = load (mem w) c)
    /\ (forall c, 0 <= load (mem w) c < 2 ^ 64
                  \/ (exists b, d <= b < d + Z.of_nat n /\ cell_of b = c) ->
                  0 <= load (mem w') c < 2 ^ 64).
Proof.
  induction n as [|n IH]; intros d w.
  - exists w, []. simpl. split; [reflexivity|]. split; [reflexivity|].
    split; [reflexivity|]. split; [reflexivity|]. split; [reflexivity|].
    split; [constructor|]. split; [|split].
    + intros a. destruct (decide _); [lia|reflexivity].
    + intros c _. reflexivity.
    + intros c [H|(b & Hb & _)]; [assumption|lia].
  - simpl memset_loop. unfold bind at 1.
    set (v := field_set (8 * lane_of d) 8 (u64 (load (mem w) (cell_of d))) e).
    change (write_byte d e w)
      with (Done (W := world) tt
              (World (<[cell_of d := v]> (mem w)) (heap w) (cr3 w)
                     (EvStore (cell_of d) v :: trace w))).
    cbv iota beta.
    destruct (IH (d + 1) (World (<[cell_of d := v]> (mem w)) (heap w) (cr3 w)
                               (EvStore (cell_of d) v :: trace w)))
      as (w' & evs & Hrun & Hh & Hc & Ht & Hlen & Hev & Hin & Hout & Hrg).
    cbn [mem heap cr3 trace] in *.
    exists w', (evs ++ [EvStore (cell_of d) v]).
    split; [assumption|]. split; [assumption|]. split; [assumption|].
    split; [rewrite Ht, <- app_assoc; reflexivity|].
    split; [rewrite length_app, Hlen; simpl; lia|].
    split; [|split; [|split]].
    + apply Forall_app. split.
      * eapply Forall_impl; [exact Hev|]. intros ev (b & x & -> & Hb).
        exists b, x. split; [reflexivity|lia].
      * apply Forall_cons_2; [|apply Forall_nil_2].
        exists d, v. split; [reflexivity|lia].
    + intros a. rewrite Hin. unfold v. rewrite byte_at_store.
      destruct (decide (d + 1 <= a < d + 1 + Z.of_nat n)),
               (decide (d <= a < d + Z.of_nat (S n))),
               (decide (a = d)); try lia; reflexivity.
    + intros c Hc'. rewrite Hout.
      * apply load_insert_other. apply Hc'. lia.
      * intros b Hb. apply Hc'. lia.
    + intros c Hc'. apply Hrg.
      destruct (decide (c = cell_of d)) as [->|N].
      * left. rewrite load_insert_same. unfold v.
        pose proof (lane_range d). apply field_set_u64; lia.
      * rewrite load_insert_other by congruence.
        destruct Hc' as [H|(b & Hb & E)]; [left; assumption|].
        right. exists b. split; [|assumption].
        assert (b <> d) by congruence. lia.
Qed.

Lemma step_zero_frame (m : gmap Z Z) (t i : Z) :
  zero_frame m t -> 0 <= i < PAGE_TABLE_SIZE -> step m t i = None.
Proof. intros Hz Hi. unfold step. rewrite Hz by assumption. reflexivity. Qed.

(** With a zero-filled root no table is reachable and nothing is mapped. *)
Lemma wf_of_zero_root (w : world) :
  0 <= pml4 /\ pml4 mod PAGE_SIZE = 0 ->
  zero_frame (mem w) pml4 ->
  (forall f, owns (heap w) f -> frame_ok f /\ f <> pml4 /\ zero_frame (mem w) f) ->
  wf w /\ links_allocated w /\ maps_exactly (fun _ => False) w.
Proof.
  intros Hroot Hz Hfree.
  assert (Hnone : forall q t, valid_path q -> descend (mem w) pml4 q = Some t ->
            q = [] /\ t = pml4).
  { intros [|i q] t Hq; simpl.
    - intros [= <-]. split; reflexivity.
    - apply Forall_cons in Hq. destruct Hq as [Hi _].
      rewrite step_zero_frame by assumption. discriminate. }
  split; [constructor|split].
  - assumption.
  - intros p q t Hp Hq _ _ H1 H2.
    destruct (Hnone _ _ Hp H1) as [-> _], (Hnone _ _ Hq H2) as [-> _]. reflexivity.
  - intros f Hf. apply Hfree. assumption.
  - intros f p Hf Hp _ H. destruct (Hnone _ _ Hp H) as [_ ->].
    destruct (Hfree _ Hf) as (_ & Hne & _). contradiction.
  - intros f Hf. apply Hfree. assumption.
  - intros p t Hp Hl H. destruct (Hnone _ _ Hp H) as [-> _]. simpl in Hl. lia.
  - intros p t Hp Hl H. destruct (Hnone _ _ Hp H) as [-> _]. simpl in Hl. lia.
  - intros va Hva. split; [contradiction|]. intros _. unfold translate.
    destruct (descend (mem w) pml4 (indices va)) as [t|] eqn:E; [|reflexivity].
    destruct (Hnone _ _ (linaddr_indices_valid va) E) as [E' _]. discriminate E'.
Qed.

(** The bytes of the root are the bytes of its 512 entries. *)
Lemma root_cell (b : Z) :
  pml4 <= b < pml4 + PAGE_TABLE_SIZE * 8 ->
  pml4 <= cell_of b < pml4 + PAGE_TABLE_SIZE * 8.
Proof.
  clear owns. unfold cell_of, lane_of, PAGE_TABLE_SIZE. intros Hb.
  Z.div_mod_to_equations. lia.
Qed.

Lemma root_entry_bytes (i j : Z) :
  0 <= j < 8 ->
  cell_of (pe_addr pml4 i + j) = pe_addr pml4 i /\ lane_of (pe_addr pml4 i + j) = j.
Proof.
  unfold cell_of, lane_of, pe_addr. intros Hj.
  replace (pml4 + 8 * i + j - pml4) with (j + i * 8) by lia.
  rewrite Z.mod_add, Z.mod_small by lia. split; lia.
Qed.

(** The first statement of [setup_paging]: whatever the memory holds, the
    [memset] returns with the 512 entries of the root zero, by stores into
    the root only. *)
Lemma memset_root_zero (w : world) :
  exists w1 zs,
    memset pml4 0 (PAGE_TABLE_SIZE * 8) w = Done pml4 w1
    /\ heap w1 = heap w /\ cr3 w1 = cr3 w
    /\ trace w1 = zs ++ trace w
    /\ length zs = Z.to_nat (PAGE_TABLE_SIZE * 8)
    /\ Forall root_store zs
    /\ zero_frame (mem w1) pml4
    /\ (forall c, ~ pml4 <= c < pml4 + PAGE_TABLE_SIZE * 8 ->
          load (mem w1) c = load (mem w) c).
Proof.
  clear owns. unfold memset.
  destruct (memset_loop_spec (Z.to_nat (PAGE_TABLE_SIZE * 8)) 0 pml4 w)
    as (w1 & zs & Hrun & Hh & Hc & Ht & Hlen & Hev & Hin & Hout & Hrg).
  rewrite Z2Nat.id in Hev, Hin, Hout, Hrg by (unfold PAGE_TABLE_SIZE; lia).
  exists w1, zs. unfold bind, ret. rewrite Hrun.
  split; [reflexivity|]. split; [assumption|]. split; [assumption|].
  split; [assumption|]. split; [assumption|]. split; [|split].
  - eapply Forall_impl; [exact Hev|]. intros ev (b & x & -> & Hb).
    simpl. apply root_cell. assumption.
  - intros i Hi.
    assert (Hcell : 0 <= load (mem w1) (pe_addr pml4 i) < 2 ^ 64).
    { apply Hrg. right. exists (pe_addr pml4 i + 0).
      split; [unfold pe_addr, PAGE_TABLE_SIZE in *; lia|].
      apply root_entry_bytes. lia. }
    apply zero_of_bytes; [assumption|]. intros j Hj.
    destruct (root_entry_bytes i j Hj) as [Ec El].
    pose proof (Hin (pe_addr pml4 i + j)) as Hb.
    unfold byte_at in Hb. rewrite Ec, El in Hb. rewrite Hb.
    destruct (decide (pml4 <= pe_addr pml4 i + j < pml4 + PAGE_TABLE_SIZE * 8));
      [reflexivity|].
    unfold pe_addr, PAGE_TABLE_SIZE in *. lia.
  - intros c Hc'. apply Hout. intros b Hb E. apply Hc'. rewrite <- E.
    apply root_cell. assumption.
Qed.

Lemma memset_root (w : world) :
  boot_ok w ->
  exists w1,
    memset pml4 0 (PAGE_TABLE_SIZE * 8) w = Done pml4 w1
    /\ heap w1 = heap w /\ cr3 w1 = cr3 w
    /\ wf w1 /\ links_allocated w1 /\ maps_exactly (fun _ => False) w1.
Proof.
  intros [Hroot Hfree].
  destruct (memset_root_zero w) as (w1 & zs & Hrun & Hh & Hc & _ & _ & _ & Hz & Hout).
  exists w1. split; [assumption|]. split; [assumption|]. split; [assumption|].
  apply wf_of_zero_root; [assumption|assumption|].
  intros f Hf. rewrite Hh in Hf. destruct (Hfree f Hf) as ([Hr Ha] & Hne & Hzf).
  split; [split; assumption|]. split; [assumption|].
  intros i Hi. rewrite Hout; [apply Hzf; assumption|].
  destruct Hroot as [_ Hra].
  unfold pe_addr, PAGE_TABLE_SIZE, PAGE_SIZE in *.
  apply Z.mod_divide in Ha; [|lia]. apply Z.mod_divide in Hra; [|lia].
  destruct Ha as [a ->], Hra as [b Hb]. rewrite Hb in *. lia.
Qed.

(** *** The identity-mapping policy *)

Lemma to_int_small (z : Z) : 0 <= z < 2 ^ 31 -> to_int z = z.
Proof.
  intros H. unfold to_int.
  change (2 ^ 31) with 2147483648 in *. change (2 ^ 32) with 4294967296.
  rewrite Z.mod_small by lia. lia.
Qed.

(** The chain of tests of [map_efi_regions], first match first, selects a
    descriptor exactly when one of the three conditions holds. *)
Lemma map_efi_region_selected (fuel : nat) (md : EFI_MEMORY_DESCRIPTOR) :
  map_efi_region fuel md =
  if selected md
  then map_region_id fuel (PhysicalStart md) (to_int (NumberOfPages md))
  else ret tt.
Proof.
  unfold map_efi_region, selected.
  destruct (negb _); [reflexivity|].
  destruct (_ =? EfiLoaderCode); [reflexivity|].
  destruct (_ =? EfiLoaderData); reflexivity.
Qed.

Lemma same_page_indices (a b : Z) : a / 4096 = b / 4096 -> indices a = indices b.
Proof. intros E. apply indices_page. rewrite E. reflexivity. Qed.

Lemma map_region_id_policy (fuel : nat) (a np : Z) (w : world) (R : Z -> Prop) :
  alloc_contract -> wf w -> maps_exactly R w ->
  0 <= a -> a mod PAGE_SIZE = 0 -> 0 <= np < 2 ^ 31 ->
  a + np * PAGE_SIZE <= 2 ^ 48 -> np < Z.of_nat fuel ->
  (exists w',
      map_region_id fuel a np w = Done tt w'
      /\ wf w'
      /\ maps_exactly (fun va => R va \/ a <= va < a + np * PAGE_SIZE) w')
  \/ (exists w',
      map_region_id fuel a np w = Halted w' /\ pgalloc (heap w') = None).
Proof.
  intros Hc Hwf Hm Ha Haa Hnp Hae Hfuel.
  pose proof (map_region_loop_kept fuel a (a + np * PAGE_SIZE) a w Hc Hwf) as Hk.
  unfold map_region_id, map_region.
  rewrite u64_small by (unfold PAGE_SIZE in *; lia).
  destruct (map_region_loop_spec (Z.to_nat np) fuel a a w)
    as [(w' & Hrun & Hs & Ht) | (w' & Hrun & _)];
    rewrite ?Z2Nat.id by lia; try assumption; try (unfold PAGE_SIZE in *; lia).
  2:{ rewrite Z2Nat.id in Hrun by lia. rewrite Hrun in Hk |- *.
      right. exists w'. split; [reflexivity|]. apply Hk. }
  rewrite Z2Nat.id in Hrun, Hs, Ht by lia. rewrite Hrun in Hk |- *.
  left. exists w'. split; [reflexivity|]. split; [apply Hk|].
  intros va Hva. destruct (Hm va Hva) as [Hin Hout].
  assert (Hdec : a <= va < a + np * PAGE_SIZE \/ ~ a <= va < a + np * PAGE_SIZE) by lia.
  destruct Hdec as [Hreg|Hreg].
  - (* inside the region *)
    set (k := (va - a) / 4096).
    assert (Hk0 : 0 <= k < np /\ a + k * PAGE_SIZE = va - va mod PAGE_SIZE
                  /\ (a + k * PAGE_SIZE) / 4096 = va / 4096).
    { unfold k, PAGE_SIZE in *. clear -Haa Hreg Ha Hnp.
      Z.div_mod_to_equations. lia. }
    destruct Hk0 as (Hkr & Hkv & Hkp).
    split; [|intros Hn; exfalso; apply Hn; right; lia].
    intros _. unfold translate. rewrite <- (same_page_indices _ _ Hkp).
    rewrite <- Hkv. apply Ht. assumption.
  - (* outside: the walk is as before *)
    assert (Hsame : translate w' va = translate w va).
    { unfold translate. apply Hs; [apply linaddr_indices_valid | reflexivity |].
      intros (k & Hk' & E). apply indices_page in E.
      unfold PAGE_SIZE in *. clear -E Hk' Hva Hae Ha Haa Hreg Hnp.
      change (2 ^ 48) with 281474976710656 in *.
      change (2 ^ 36) with 68719476736 in *.
      change (2 ^ 31) with 2147483648 in *.
      revert E. Z.div_mod_to_equations. lia. }
    rewrite Hsame. split.
    + intros [HS|Hr]; [apply Hin; assumption | contradiction].
    + intros Hn. apply Hout. intros HS. apply Hn. left. assumption.
Qed.

Lemma maps_exactly_ext (R R' : Z -> Prop) (w : world) :
  (forall va, R va <-> R' va) -> maps_exactly R w -> maps_exactly R' w.
Proof.
  intros HS Hm va Hva. destruct (Hm va Hva) as [Hin Hout].
  split; intros H; [apply Hin | apply Hout]; rewrite HS; assumption.
Qed.

Lemma map_efi_regions_policy_from (fuel : nat) (mm : EfiMemoryMap) :
  forall (w : world) (R : Z -> Prop),
  alloc_contract -> wf w -> maps_exactly R w ->
  Forall (fun md => selected md = true ->
                    sane md /\ NumberOfPages md < Z.of_nat fuel) mm ->
  (exists w',
      map_efi_regions fuel mm w = Done tt w'
      /\ wf w'
      /\ maps_exactly (fun va => R va \/ covered mm va) w')
  \/ (exists w',
      map_efi_regions fuel mm w = Halted w' /\ pgalloc (heap w') = None).
Proof.
  induction mm as [|md mm IH]; intros w R Hc Hwf Hm Hsane.
  - left. exists w. split; [reflexivity|]. split; [assumption|].
    apply (maps_exactly_ext R); [|assumption].
    intros va. split; [tauto|]. intros [H|(md & [] & _)]. assumption.
  - apply Forall_cons in Hsane. destruct Hsane as [Hmd Hrest].
    simpl map_efi_regions. unfold bind. rewrite map_efi_region_selected.
    destruct (selected md) eqn:Hsel.
    + destruct (Hmd eq_refl) as [(Hs0 & Hsa & Hnp & Hse) Hfuel].
      rewrite to_int_small by assumption.
      destruct (map_region_id_policy fuel (PhysicalStart md) (NumberOfPages md)
                  w R Hc Hwf Hm Hs0 Hsa Hnp Hse Hfuel)
        as [(w1 & Hrun & Hwf1 & Hm1) | (w1 & Hrun & Hnone)]; rewrite Hrun.
      2:{ right. exists w1. split; [reflexivity|assumption]. }
      destruct (IH w1 _ Hc Hwf1 Hm1 Hrest)
        as [(w' & Hrun' & Hwf' & Hm') | (w' & Hrun' & Hnone)].
      2:{ right. exists w'. split; assumption. }
      left. exists w'. split; [assumption|]. split; [assumption|].
      refine (maps_exactly_ext _ _ w' _ Hm').
      intros va. unfold covered, in_region. split.
      * intros [[H|H]|(md' & Hin & Hs' & Hr')].
        -- left. assumption.
        -- right. exists md. split; [left; reflexivity|]. split; assumption.
        -- right. exists md'. split; [right; assumption|]. split; assumption.
      * intros [H|(md' & [<-|Hin] & Hs' & Hr')].
        -- left. left. assumption.
        -- left. right. assumption.
        -- right. exists md'. split; [assumption|]. split; assumption.
    + unfold ret.
      destruct (IH w R Hc Hwf Hm Hrest)
        as [(w' & Hrun' & Hwf' & Hm') | (w' & Hrun' & Hnone)].
      2:{ right. exists w'. split; assumption. }
      left. exists w'. split; [assumption|]. split; [assumption|].
      refine (maps_exactly_ext _ _ w' _ Hm').
      intros va. unfold covered. split.
      * intros [H|(md' & Hin & Hs' & Hr')]; [left; assumption|].
        right. exists md'. split; [right; assumption|]. split; assumption.
      * intros [H|(md' & [<-|Hin] & Hs' & Hr')]; [left; assumption|congruence|].
        right. exists md'. split; [assumption|]. split; assumption.
Qed.

(** C2 (amended). The policy maps a descriptor exactly when its attribute
    has the runtime bit, or else its type is loader code, or else loader
    data ([selected], see [map_efi_region_selected]).  Run from a
    well-formed state in which nothing below [2^48] is mapped, on a memory
    map whose selected descriptors are sane (page-aligned, within [2^48],
    the page count below [2^31]), with fuel for the largest region, it
    returns in a state where an address below [2^48] translates (to its
    own page) if it lies in the region of a selected descriptor and walks
    to nothing Present if it does not; or the machine halts because the
    allocator is exhausted. *)
Theorem map_efi_regions_policy (fuel : nat) (mm : EfiMemoryMap) (w : world) :
  alloc_contract -> wf w ->
  (forall va, 0 <= va < 2 ^ 48 -> translate w va = None) ->
  Forall (fun md => selected md = true ->
                    sane md /\ NumberOfPages md < Z.of_nat fuel) mm ->
  (exists w',
      map_efi_regions fuel mm w = Done tt w'
      /\ forall va, 0 <= va < 2 ^ 48 ->
           (covered mm va -> translate w' va = Some (va - va mod PAGE_SIZE))
           /\ (~ covered mm va -> translate w' va = None))
  \/ (exists w',
      map_efi_regions fuel mm w = Halted w' /\ pgalloc (heap w') = None).
Proof.
  intros Hc Hwf Hnone Hsane.
  assert (Hm : maps_exactly (fun _ => False) w).
  { intros va Hva. split; [contradiction|]. intros _. apply Hnone. assumption. }
  destruct (map_efi_regions_policy_from fuel mm w _ Hc Hwf Hm Hsane)
    as [(w' & Hrun & _ & Hm') | (w' & Hrun & Hn)].
  - left. exists w'. split; [assumption|].
    apply (maps_exactly_ext _ (covered mm) w') in Hm'; [exact Hm'|].
    intros va. tauto.
  - right. exists w'. split; assumption.
Qed.

(** *** The entry point *)

Lemma root_store_not_cr3 (ev : event) : root_store ev -> not_cr3 ev.
Proof. destruct ev; simpl; tauto. Qed.

Lemma setup_paging_unfold (fuel : nat) (mm : EfiMemoryMap) (fb : Framebuffer)
    (kernel_pa kernel_va : Z) (w : world) :
  exists w1 zs,
    memset pml4 0 (PAGE_TABLE_SIZE * 8) w = Done pml4 w1
    /\ heap w1 = heap w /\ cr3 w1 = cr3 w
    /\ trace w1 = zs ++ trace w
    /\ length zs = Z.to_nat (PAGE_TABLE_SIZE * 8)
    /\ Forall root_store zs
    /\ zero_frame (mem w1) pml4
    /\ setup_paging fuel mm fb kernel_pa kernel_va w =
       match map_efi_regions fuel mm w1 with
       | Done _ w2 =>
           Done tt (World (mem w2) (heap w2) (u64 pml4)
                          (EvCr3 (u64 pml4) :: trace w2))
       | Halted w2 => Halted w2
       | OutOfFuel => OutOfFuel
       end.
Proof.
  destruct (memset_root_zero w) as (w1 & zs & Hrun & Hh & Hc & Ht & Hlen & Hev & Hz & _).
  exists w1, zs. split; [assumption|]. split; [assumption|]. split; [assumption|].
  split; [assumption|]. split; [assumption|]. split; [assumption|].
  split; [assumption|].
  unfold setup_paging. unfold bind at 1. rewrite Hrun.
  unfold bind, enable_paging, write_cr3.
  destruct (map_efi_regions fuel mm w1) as [[] w2|w2|]; reflexivity.
Qed.

(** A halt is a halt of the exhausted allocator. *)
Lemma halts_exhausted_bind {A B : Type} (c : M A) (k : A -> M B) :
  halts_exhausted c -> (forall a, halts_exhausted (k a)) ->
  halts_exhausted (bind c k).
Proof.
  unfold halts_exhausted, bind. intros Hc Hk w w'. specialize (Hc w).
  destruct (c w) as [a w1|w1|].
  - apply Hk.
  - intros [= <-]. apply Hc. reflexivity.
  - discriminate.
Qed.

Lemma halts_exhausted_get_pm (pt pi : Z) : halts_exhausted (get_pm pt pi).
Proof.
  intros w w'. unfold get_pm, init_pe, call_pgalloc, bind, read, write, ret.
  destruct (_ =? 0); [|discriminate].
  destruct (pgalloc (heap w)) as [[page h]|] eqn:E; [discriminate|].
  intros [= <-]. exact E.
Qed.

Lemma halts_exhausted_map_page_pml4 (t vpa ppa : Z) :
  halts_exhausted (map_page_pml4 t vpa ppa).
Proof.
  unfold map_page_pml4, map_page_pdpt, map_page_pd, map_page_pt, init_pe.
  repeat (apply halts_exhausted_bind; [apply halts_exhausted_get_pm | intros ?]).
  intros w w'. discriminate.
Qed.

Lemma halts_exhausted_map_region_loop (fuel : nat) (vra vrae pra : Z) :
  halts_exhausted (map_region_loop fuel vra vrae pra).
Proof.
  revert vra pra. induction fuel as [|fuel IH]; intros vra pra; simpl.
  - intros w w'. discriminate.
  - destruct (vra <? vrae); [|intros w w'; discriminate].
    apply halts_exhausted_bind;
      [apply halts_exhausted_map_page_pml4 | intros _; apply IH].
Qed.

Lemma halts_exhausted_map_efi_regions (fuel : nat) (mm : EfiMemoryMap) :
  halts_exhausted (map_efi_regions fuel mm).
Proof.
  induction mm as [|md mm IH]; simpl; [intros w w'; discriminate|].
  apply halts_exhausted_bind; [|intros _; exact IH].
  rewrite map_efi_region_selected.
  destruct (selected md); [|intros w w'; discriminate].
  apply halts_exhausted_map_region_loop.
Qed.

(** With more fuel than the loop has turns, [map_region] does not run
    out of it. *)
Lemma map_region_returns_turns (fuel : nat) (vra pra np : Z) :
  0 <= vra < 2 ^ 64 -> region_turns vra np < Z.of_nat fuel ->
  returns (map_region fuel vra pra np).
Proof.
  unfold region_turns. intros Hv Hfuel.
  assert (Hr : 0 <= u64 (vra + np * PAGE_SIZE) < 2 ^ 64)
    by (apply Z.mod_pos_bound; lia).
  assert (Hm : (u64 (vra + np * PAGE_SIZE) - vra) mod PAGE_SIZE = 0).
  { unfold u64, PAGE_SIZE. clear Hr Hfuel.
    change (2 ^ 64) with 18446744073709551616.
    Z.div_mod_to_equations. lia. }
  unfold map_region.
  apply (map_region_loop_returns
           (Z.to_nat (Z.max 0 ((u64 (vra + np * PAGE_SIZE) - vra) / PAGE_SIZE)))).
  - lia.
  - lia.
  - right. assumption.
  - rewrite Z2Nat.id by lia. unfold PAGE_SIZE in Hm |- *. revert Hm.
    generalize (u64 (vra + np * 4096) - vra). intros x Hm.
    Z.div_mod_to_equations. lia.
  - lia.
Qed.

Lemma map_efi_regions_returns (fuel : nat) (mm : EfiMemoryMap) :
  Forall (fun md => selected md = true ->
            0 <= PhysicalStart md < 2 ^ 64
            /\ region_turns (PhysicalStart md) (to_int (NumberOfPages md))
               < Z.of_nat fuel) mm ->
  returns (map_efi_regions fuel mm).
Proof.
  induction 1 as [|md mm Hmd _ IH]; simpl; [intros ?; discriminate|].
  apply returns_bind; [|intros _; exact IH].
  rewrite map_efi_region_selected.
  destruct (selected md); [|intros ?; discriminate].
  destruct (Hmd eq_refl) as [Hs Ht].
  apply map_region_returns_turns; assumption.
Qed.

(** C9. [setup_paging] works strictly forward, in every run.  First the
    [memset] returns, with the 512 entries of the root zero, by stores into
    the root only.  Then the policy runs from that state, and what
    [setup_paging] does is decided by how the policy ends: if it returns,
    [setup_paging] makes one more step, the write of the root's address to
    CR3, and returns; if the machine halts in it (in the exhausted
    allocator), that is the state [setup_paging] halts in.  Up to there
    CR3 holds its old value and no event is a write to it.  And with more
    fuel than the largest selected region has pages the run does end. *)
Theorem setup_paging_order (fuel : nat) (mm : EfiMemoryMap) (fb : Framebuffer)
    (kernel_pa kernel_va : Z) (w : world) :
  exists w1 zs,
    memset pml4 0 (PAGE_TABLE_SIZE * 8) w = Done pml4 w1
    /\ trace w1 = zs ++ trace w /\ Forall root_store zs
    /\ zero_frame (mem w1) pml4 /\ cr3 w1 = cr3 w /\ heap w1 = heap w
    /\ match map_efi_regions fuel mm w1 with
       | Done _ w2 =>
           setup_paging fuel mm fb kernel_pa kernel_va w =
           Done tt (World (mem w2) (heap w2) (u64 pml4)
                          (EvCr3 (u64 pml4) :: trace w2))
           /\ cr3 w2 = cr3 w
           /\ exists evs, trace w2 = evs ++ zs ++ trace w /\ Forall not_cr3 evs
       | Halted w2 =>
           setup_paging fuel mm fb kernel_pa kernel_va w = Halted w2
           /\ cr3 w2 = cr3 w /\ pgalloc (heap w2) = None
           /\ exists evs, trace w2 = evs ++ zs ++ trace w /\ Forall not_cr3 evs
       | OutOfFuel =>
           setup_paging fuel mm fb kernel_pa kernel_va w = OutOfFuel
       end
    /\ (Forall (fun md => selected md = true ->
                  0 <= PhysicalStart md < 2 ^ 64
                  /\ region_turns (PhysicalStart md) (to_int (NumberOfPages md))
                     < Z.of_nat fuel) mm ->
        setup_paging fuel mm fb kernel_pa kernel_va w <> OutOfFuel).
Proof.
  destruct (setup_paging_unfold fuel mm fb kernel_pa kernel_va w)
    as (w1 & zs & Hms & Hh & Hc & Ht & _ & Hzs & Hz & Hsetup).
  exists w1, zs.
  split; [exact Hms|]. split; [exact Ht|]. split; [exact Hzs|].
  split; [exact Hz|]. split; [exact Hc|]. split; [exact Hh|].
  pose proof (quietly_map_efi_regions fuel mm w1) as Hq.
  pose proof (halts_exhausted_map_efi_regions fuel mm w1) as Hx.
  pose proof (fun H => map_efi_regions_returns fuel mm H w1) as Hr.
  rewrite Hsetup.
  destruct (map_efi_regions fuel mm w1) as [[] w2|w2|] eqn:Hrun.
  - destruct (Hq w2 eq_refl) as [Hc2 (evs & Ht2 & Hf2)].
    split; [|discriminate].
    split; [reflexivity|]. split; [congruence|].
    exists evs. split; [rewrite Ht2, Ht; reflexivity | assumption].
  - destruct (Hq w2 eq_refl) as [Hc2 (evs & Ht2 & Hf2)].
    split; [|discriminate].
    split; [reflexivity|]. split; [congruence|]. split; [apply Hx; reflexivity|].
    exists evs. split; [rewrite Ht2, Ht; reflexivity | assumption].
  - split; [reflexivity|]. intros Hfuel _. apply (Hr Hfuel). reflexivity.
Qed.

(** X27.  Exhaustion halts cleanly when the allocator's frames are
    zero-filled and below [2^40].  A walker call halts exactly when the
    entry is absent and the allocator has no frame left, and it halts
    before anything is stored: the state is the one the call was entered
    in.  And when [setup_paging], entered in a state [boot_ok] with an
    allocator that keeps its contract, halts, then in the state it halts
    in the allocator is exhausted, the tables are well formed, every table
    reachable below the root is a frame the allocator handed out, and CR3
    was not written. *)
Theorem exhaustion_halts_cleanly (fuel : nat) (mm : EfiMemoryMap)
    (fb : Framebuffer) (kernel_pa kernel_va : Z) (w w' : world) :
  alloc_contract -> boot_ok w ->
  setup_paging fuel mm fb kernel_pa kernel_va w = Halted w' ->
  (forall pt pi w0 w0',
      get_pm pt pi w0 = Halted w0' <->
      w0' = w0 /\ pgalloc (heap w0) = None
      /\ Pe.is_present (load (mem w0) (pe_addr pt pi)) = false)
  /\ pgalloc (heap w') = None
  /\ wf w' /\ links_allocated w'
  /\ cr3 w' = cr3 w.
Proof.
  intros Hc Hboot Hrun. split.
  { intros pt pi w0 w0'. split.
    - intros H.
      destruct (Pe.is_present (load (mem w0) (pe_addr pt pi))) eqn:Hp.
      + rewrite get_pm_hit in H by assumption. discriminate.
      + destruct (pgalloc (heap w0)) as [[f h]|] eqn:Ha.
        * rewrite (get_pm_miss _ _ _ _ _ Hp Ha) in H. discriminate.
        * rewrite (get_pm_halt _ _ _ Hp Ha) in H. injection H as <-.
          repeat split; reflexivity.
    - intros (-> & Ha & Hp). apply get_pm_halt; assumption. }
  destruct (memset_root w Hboot)
    as (w1 & Hms & Hh & Hc1 & Hwf1 & Hl1 & _).
  destruct (setup_paging_unfold fuel mm fb kernel_pa kernel_va w)
    as (w1' & zs & Hms' & _ & _ & _ & _ & _ & _ & Hsetup).
  rewrite Hms in Hms'. injection Hms' as <-.
  rewrite Hsetup in Hrun.
  pose proof (map_efi_regions_kept fuel mm w1 Hc Hwf1) as Hk.
  pose proof (quietly_map_efi_regions fuel mm w1) as Hq.
  destruct (map_efi_regions fuel mm w1) as [[] w2|w2|]; try discriminate.
  injection Hrun as <-. simpl in Hk.
  destruct Hk as (Hwf2 & Hl2 & Hn).
  destruct (Hq w2 eq_refl) as [Hc2 _].
  split; [assumption|]. split; [assumption|]. split; [tauto|]. congruence.
Qed.

(** With fuel above [2^52], [setup_paging] never runs out of it. *)
Lemma setup_paging_returns (fuel : nat) (mm : EfiMemoryMap) (fb : Framebuffer)
    (kernel_pa kernel_va : Z) :
  2 ^ 52 < Z.of_nat fuel ->
  Forall (fun md => 0 <= PhysicalStart md < 2 ^ 64) mm ->
  returns (setup_paging fuel mm fb kernel_pa kernel_va).
Proof.
  intros Hfuel Hmm w.
  destruct (setup_paging_unfold fuel mm fb kernel_pa kernel_va w)
    as (w1 & zs & _ & _ & _ & _ & _ & _ & _ & ->).
  assert (Hr : returns (map_efi_regions fuel mm)).
  { induction Hmm as [|md mm Hmd _ IH]; simpl; [intros ?; discriminate|].
    apply returns_bind; [|intros _; exact IH].
    rewrite map_efi_region_selected.
    destruct (selected md); [|intros ?; discriminate].
    apply map_region_returns; assumption. }
  specialize (Hr w1). destruct (map_efi_regions fuel mm w1); congruence.
Qed.

(** ** More about the entry *)

Lemma testbit_init (e A n : Z) :
  0 <= n ->
  Z.testbit (Pe.init e A) n =
  if n <? 2 then true
  else if (12 <=? n) && (n <? 52) then Z.testbit A n
  else Z.testbit e n.
Proof.
  intros Hn. unfold Pe.init, Pe.set_rw, Pe.set_p, Pe.set_phy, PAGE_SIZE_BITS.
  rewrite !testbit_field_set by lia.
  destruct (Z.eq_dec n 1) as [->|N1]; [reflexivity|].
  destruct (Z.eq_dec n 0) as [->|N0]; [reflexivity|].
  destruct (Z.leb_spec 1 n); [|lia].
  destruct (Z.ltb_spec n (1 + 1)); [lia|].
  destruct (Z.leb_spec 0 n); [|lia].
  destruct (Z.ltb_spec n (0 + 1)); [lia|].
  destruct (Z.ltb_spec n 2); [lia|]. simpl.
  change (12 + 40) with 52.
  destruct ((12 <=? n) && (n <? 52)) eqn:E; [|reflexivity].
  apply andb_true_iff in E. destruct E as [E1 E2].
  apply Z.leb_le in E1. rewrite Z.shiftr_spec by lia. f_equal. lia.
Qed.

(** X1. The fourteen bit-fields of [Pe] tile the 64-bit entry: its low 64
    bits are the fields put side by side, each at its position. *)
Theorem pe_fields_tile_entry (e : Z) :
  u64 e =
  Pe.p e + 2 ^ 1 * Pe.rw e + 2 ^ 2 * Pe.us e + 2 ^ 3 * Pe.pwt e
  + 2 ^ 4 * Pe.pcd e + 2 ^ 5 * Pe.a e + 2 ^ 6 * Pe.d e + 2 ^ 7 * Pe.pat_ps e
  + 2 ^ 8 * Pe.g e + 2 ^ 9 * Pe.ignored_0 e + 2 ^ 12 * Pe.phy e
  + 2 ^ 52 * Pe.ignored_1 e + 2 ^ 59 * Pe.pk e + 2 ^ 63 * Pe.xd e.
Proof.
  unfold u64, Pe.p, Pe.rw, Pe.us, Pe.pwt, Pe.pcd, Pe.a, Pe.d, Pe.pat_ps, Pe.g,
    Pe.ignored_0, Pe.phy, Pe.ignored_1, Pe.pk, Pe.xd.
  rewrite !field_get_div_mod by lia.
  change (2 ^ 0) with 1. rewrite Z.div_1_r.
  change (2 ^ 1) with 2. change (2 ^ 2) with 4. change (2 ^ 3) with 8.
  change (2 ^ 4) with 16. change (2 ^ 5) with 32. change (2 ^ 6) with 64.
  change (2 ^ 7) with 128. change (2 ^ 8) with 256. change (2 ^ 9) with 512.
  change (2 ^ 12) with 4096. change (2 ^ 40) with 1099511627776.
  change (2 ^ 52) with 4503599627370496.
  change (2 ^ 59) with 576460752303423488.
  change (2 ^ 63) with 9223372036854775808.
  change (2 ^ 64) with 18446744073709551616.
  Z.div_mod_to_equations. lia.
Qed.

(** X2. Initialising an entry again forgets the address stored before: the
    result is that of initialising the original entry with the new
    address.  In particular [init_pe] with the same address twice is
    [init_pe] once. *)
Theorem init_pe_overwrites (e A B : Z) :
  Pe.init (Pe.init e A) B = Pe.init e B.
Proof.
  apply Z.bits_inj'. intros n Hn. rewrite !testbit_init by assumption.
  destruct (n <? 2); [reflexivity|].
  destruct ((12 <=? n) && (n <? 52)); reflexivity.
Qed.

Lemma init_init (e A B : Z) : Pe.init (Pe.init e A) B = Pe.init e B.
Proof.
  apply Z.bits_inj'. intros n Hn. rewrite !testbit_init by assumption.
  destruct (n <? 2); [reflexivity|].
  destruct ((12 <=? n) && (n <? 52)); reflexivity.
Qed.

(** X3. What [get_pm] reads back from an initialised entry, for any
    address: the address cut to 40 bits with its page offset dropped.  A
    misaligned address is rounded down to its page and the bits from 40 up
    are lost, without any error; a page-aligned address below [2^40] is
    read back as it was stored. *)
Theorem init_pe_decodes_page_base (e A : Z) :
  Pe.frame_address (Pe.init e A) = A mod 2 ^ 40 - A mod PAGE_SIZE
  /\ Pe.is_present (Pe.init e A) = true.
Proof.
  clear owns. split.
  - unfold Pe.frame_address, PAGE_SIZE_BITS, PAGE_SIZE.
    rewrite init_phy, Z.shiftl_mul_pow2 by lia.
    change (2 ^ 12) with 4096. change (2 ^ 40) with 1099511627776.
    Z.div_mod_to_equations. lia.
  - unfold Pe.is_present. rewrite init_p. reflexivity.
Qed.

Lemma init_other_fields (e A : Z) :
  pe_other_fields (Pe.init e A) = pe_other_fields e.
Proof.
  unfold pe_other_fields, Pe.init, Pe.us, Pe.pwt, Pe.pcd, Pe.a, Pe.d,
    Pe.pat_ps, Pe.g, Pe.ignored_0, Pe.ignored_1, Pe.pk, Pe.xd,
    Pe.set_rw, Pe.set_p, Pe.set_phy.
  rewrite !get_set_other by lia. reflexivity.
Qed.

(** ** What every store of the code looks like

    The code changes the state in two ways only: [init_pe] on some entry,
    and a call of the allocator.  A relation between states that is a
    preorder and holds across these two steps holds across every function
    built from them. *)

Section Respect.

Variable R : world -> world -> Prop.
Hypothesis R_refl : forall w, R w w.
Hypothesis R_trans : forall w1 w2 w3, R w1 w2 -> R w2 w3 -> R w1 w3.
Hypothesis R_init : forall w a A,
  R w (World (<[a := Pe.init (load (mem w) a) A]> (mem w)) (heap w) (cr3 w)
             (EvStore a (Pe.init (load (mem w) a) A) :: trace w)).
Hypothesis R_alloc : forall w page h,
  R w (World (mem w) h (cr3 w) (EvAlloc page :: trace w)).

Lemma respects_ret {A : Type} (a : A) : respects R (ret a).
Proof. intros w w' [= <-]. apply R_refl. Qed.

Lemma respects_bind {A B : Type} (c : M A) (k : A -> M B) :
  respects R c -> (forall a, respects R (k a)) -> respects R (bind c k).
Proof.
  unfold respects, bind. intros Hc Hk w w'. specialize (Hc w).
  destruct (c w) as [a w1|w1|]; simpl in *.
  - intros H. eapply R_trans; [apply Hc; reflexivity | eapply Hk; eassumption].
  - apply Hc.
  - discriminate.
Qed.

Lemma respects_init_pe (pe ppa : Z) : respects R (init_pe pe ppa).
Proof. intros w w' [= <-]. apply R_init. Qed.

Lemma respects_call_pgalloc : respects R call_pgalloc.
Proof.
  intros w w'. unfold call_pgalloc.
  destruct (pgalloc (heap w)) as [[page h]|]; intros [= <-];
    [apply R_alloc | apply R_refl].
Qed.

Lemma respects_get_pm (pt pi : Z) : respects R (get_pm pt pi).
Proof.
  unfold get_pm. apply respects_bind; [intros w w' [= <-]; apply R_refl|].
  intros e. destruct (_ =? 0); [|apply respects_ret].
  apply respects_bind; [apply respects_call_pgalloc|]. intros page.
  apply respects_bind; [apply respects_init_pe | intros _; apply respects_ret].
Qed.

Lemma respects_map_page_pml4 (t vpa ppa : Z) : respects R (map_page_pml4 t vpa ppa).
Proof.
  unfold map_page_pml4, map_page_pdpt, map_page_pd, map_page_pt.
  repeat (apply respects_bind; [apply respects_get_pm | intros ?]).
  apply respects_init_pe.
Qed.

Lemma respects_map_region_loop (fuel : nat) (vra vrae pra : Z) :
  respects R (map_region_loop fuel vra vrae pra).
Proof.
  revert vra pra. induction fuel as [|fuel IH]; intros vra pra; simpl.
  - intros w w'. discriminate.
  - destruct (vra <? vrae); [|apply respects_ret].
    apply respects_bind; [apply respects_map_page_pml4 | intros _; apply IH].
Qed.

Lemma respects_map_region (fuel : nat) (vra pra np : Z) :
  respects R (map_region fuel vra pra np).
Proof. apply respects_map_region_loop. Qed.

Lemma respects_map_efi_regions (fuel : nat) (mm : EfiMemoryMap) :
  respects R (map_efi_regions fuel mm).
Proof.
  induction mm as [|md mm IH]; simpl; [apply respects_ret|].
  apply respects_bind; [|intros _; apply IH].
  rewrite map_efi_region_selected.
  destruct (selected md); [apply respects_map_region | apply respects_ret].
Qed.

End Respect.

Lemma reinit_refl (w : world) : reinit w w.
Proof. intros a. left. reflexivity. Qed.

Lemma reinit_trans (w1 w2 w3 : world) : reinit w1 w2 -> reinit w2 w3 -> reinit w1 w3.
Proof.
  intros H12 H23 a.
  destruct (H12 a) as [E1|[A E1]], (H23 a) as [E2|[B E2]]; rewrite E2, E1.
  - left. reflexivity.
  - right. exists B. reflexivity.
  - right. exists A. reflexivity.
  - right. exists B. apply init_init.
Qed.

Lemma reinit_init (w : world) (a A : Z) :
  reinit w (World (<[a := Pe.init (load (mem w) a) A]> (mem w)) (heap w) (cr3 w)
              (EvStore a (Pe.init (load (mem w) a) A) :: trace w)).
Proof.
  intros b. simpl. destruct (Z.eq_dec a b) as [<-|N].
  - right. exists A. apply load_insert_same.
  - left. apply load_insert_other. assumption.
Qed.

Lemma reinit_alloc (w : world) (page : Z) (h : Alloc) :
  reinit w (World (mem w) h (cr3 w) (EvAlloc page :: trace w)).
Proof. intros a. left. reflexivity. Qed.

(** X4. Whatever its arguments and the state, all [map_region] does to
    memory is [init_pe]: when it ends, by return or by a halt, every
    memory cell holds what it held or that value initialised with some
    address. *)
Theorem map_region_only_initialises (fuel : nat) (vra pra np : Z) (w w' : world) :
  final (map_region fuel vra pra np w) = Some w' ->
  forall a,
    load (mem w') a = load (mem w) a
    \/ exists A, load (mem w') a = Pe.init (load (mem w) a) A.
Proof.
  intros Hfin a.
  pose proof (respects_map_region reinit reinit_refl reinit_trans reinit_init
                reinit_alloc fuel vra pra np) as Hr.
  exact (Hr w w' Hfin a).
Qed.

(** X5. The policy never clears a Present bit and never touches a field
    other than Present, Read/Write and the frame number: across
    [map_efi_regions], for any memory map and any state, an entry that
    was Present is Present, and the other eleven fields of every cell are
    as before (no page becomes user-accessible, write-through, uncached,
    global or execute-disabled). *)
Theorem map_efi_regions_keeps_flags (fuel : nat) (mm : EfiMemoryMap) (w w' : world) :
  final (map_efi_regions fuel mm w) = Some w' ->
  forall a,
    pe_other_fields (load (mem w') a) = pe_other_fields (load (mem w) a)
    /\ (Pe.is_present (load (mem w) a) = true ->
        Pe.is_present (load (mem w') a) = true).
Proof.
  intros H a.
  destruct (respects_map_efi_regions reinit reinit_refl reinit_trans
              reinit_init reinit_alloc fuel mm w w' H a) as [E|[A E]]; rewrite E.
  - split; [reflexivity|tauto].
  - split; [apply init_other_fields | intros _; apply init_present].
Qed.

(** ** More about mapping one page *)

(** X6. One call of [map_page_pml4] that returns maps one page and no
    other: from a well-formed state, the walk of [vpa] then ends in the
    page base of [ppa] (cut to 52 bits), the walk of every address with
    another index path is as before, and the tables are well formed
    again. *)
Theorem map_page_pml4_maps_one_page (w w' : world) (vpa ppa : Z) :
  alloc_contract -> wf w ->
  map_page_pml4 pml4 vpa ppa w = Done tt w' ->
  translate w' vpa = Some (ppa mod 2 ^ 52 - ppa mod PAGE_SIZE)
  /\ (forall va, indices va <> indices vpa -> translate w' va = translate w va)
  /\ wf w'.
Proof.
  intros Hc Hwf Hrun.
  destruct (map_page_pml4_spec w vpa ppa Hc Hwf)
    as [(w1 & e & Hrun1 & Hwf1 & _ & Hs1 & Hd1) | (w1 & Hrun1 & _)];
    rewrite Hrun1 in Hrun; [|discriminate].
  injection Hrun as <-. split; [|split].
  - unfold translate. rewrite Hd1, frame_base_init. reflexivity.
  - intros va Hne. unfold translate.
    apply Hs1; [apply linaddr_indices_valid | reflexivity | congruence].
  - assumption.
Qed.

(** X7. A page mapping that fails changes no translation: when
    [map_page_pml4], entered in a well-formed state, halts in the
    exhausted allocator, every address walks as it did before the call
    (tables allocated on the way are linked but still empty) and the
    tables are well formed. *)
Theorem map_page_pml4_halt_maps_nothing (w w' : world) (vpa ppa : Z) :
  alloc_contract -> wf w ->
  map_page_pml4 pml4 vpa ppa w = Halted w' ->
  (forall va, translate w' va = translate w va)
  /\ wf w' /\ pgalloc (heap w') = None.
Proof.
  intros Hc Hwf Hrun.
  destruct (map_page_pml4_spec w vpa ppa Hc Hwf)
    as [(w1 & e & Hrun1 & _) | (w1 & Hrun1 & Hwf1 & _ & Hs1 & Hn)];
    rewrite Hrun1 in Hrun; [discriminate|].
  injection Hrun as <-. split; [|split; assumption].
  intros va. unfold translate.
  apply Hs1; [apply linaddr_indices_valid | reflexivity | tauto].
Qed.

(** In a well-formed state the walker goes where the processor goes. *)
Lemma get_pm_follows (w : world) (p : list Z) (t i c : Z) :
  wf w -> valid_path p -> (length p <= 2)%nat -> 0 <= i < PAGE_TABLE_SIZE ->
  descend (mem w) pml4 p = Some t ->
  step (mem w) t i = Some c ->
  get_pm t i w = Done c w.
Proof.
  intros Hwf Hp Hlp Hi Hdp Hs.
  assert (Hd : descend (mem w) pml4 (p ++ [i]) = Some c)
    by (rewrite descend_snoc, Hdp; exact Hs).
  unfold step in Hs.
  destruct (Pe.is_present (load (mem w) (pe_addr t i))) eqn:Hpres; [|discriminate].
  injection Hs as Hs. rewrite get_pm_hit by assumption. f_equal.
  rewrite <- Hs. apply frame_address_low. rewrite Hs.
  apply (wf_low w Hwf (p ++ [i])); [|rewrite length_app; simpl; lia|exact Hd].
  apply valid_path_snoc. split; assumption.
Qed.

(** X8. When the three upper levels of the walk of [vpa] are already in
    place in a well-formed state, [map_page_pml4] allocates nothing and
    makes exactly one store: [init_pe] on the leaf entry, whatever that
    entry held (a page mapped before is silently remapped). *)
Theorem map_page_pml4_existing_table (w : world) (vpa ppa t : Z) :
  wf w ->
  descend (mem w) pml4
    [LinAddr.pml4 (linaddr vpa); LinAddr.pdpt (linaddr vpa); LinAddr.pd (linaddr vpa)]
  = Some t ->
  map_page_pml4 pml4 vpa ppa w =
  Done tt
    (World (<[pe_addr t (LinAddr.pt (linaddr vpa)) :=
              Pe.init (load (mem w) (pe_addr t (LinAddr.pt (linaddr vpa)))) ppa]> (mem w))
           (heap w) (cr3 w)
           (EvStore (pe_addr t (LinAddr.pt (linaddr vpa)))
              (Pe.init (load (mem w) (pe_addr t (LinAddr.pt (linaddr vpa)))) ppa)
              :: trace w)).
Proof.
  intros Hwf.
  pose proof (linaddr_indices_valid vpa) as Hv. unfold indices, valid_path in Hv.
  apply Forall_cons in Hv. destruct Hv as [H4 Hv].
  apply Forall_cons in Hv. destruct Hv as [H3 Hv].
  apply Forall_cons in Hv. destruct Hv as [H2 _].
  set (i4 := LinAddr.pml4 (linaddr vpa)) in *.
  set (i3 := LinAddr.pdpt (linaddr vpa)) in *.
  set (i2 := LinAddr.pd (linaddr vpa)) in *.
  set (i1 := LinAddr.pt (linaddr vpa)).
  cbn [descend].
  destruct (step (mem w) pml4 i4) as [t4|] eqn:E4; [|discriminate].
  destruct (step (mem w) t4 i3) as [t3|] eqn:E3; [|discriminate].
  destruct (step (mem w) t3 i2) as [t2|] eqn:E2; [|discriminate].
  intros [= <-].
  assert (D1 : descend (mem w) pml4 [i4] = Some t4) by (cbn [descend]; rewrite E4; reflexivity).
  assert (D2 : descend (mem w) pml4 [i4; i3] = Some t3)
    by (cbn [descend]; rewrite E4, E3; reflexivity).
  unfold map_page_pml4, bind. fold i4.
  rewrite (get_pm_follows w [] pml4 i4 t4 Hwf valid_path_nil ltac:(simpl; lia) H4 eq_refl E4).
  unfold map_page_pdpt, bind. fold i3.
  rewrite (get_pm_follows w [i4] t4 i3 t3 Hwf ltac:(valid_path_tac) ltac:(simpl; lia) H3 D1 E3).
  unfold map_page_pd, bind. fold i2.
  rewrite (get_pm_follows w [i4; i3] t3 i2 t2 Hwf ltac:(valid_path_tac) ltac:(simpl; lia) H2 D2 E2).
  reflexivity.
Qed.

(** ** More about [map_region] *)

Lemma spends_ret {A : Type} (a : A) : spends 0 (ret a).
Proof. intros w w' [= <-]. lia. Qed.

Lemma spends_bind {A B : Type} (k1 k2 : nat) (c : M A) (k : A -> M B) :
  spends k1 c -> (forall a, spends k2 (k a)) -> spends (k1 + k2) (bind c k).
Proof.
  unfold spends, bind. intros Hc Hk w w'. specialize (Hc w).
  destruct (c w) as [a w1|w1|]; simpl in *.
  - intros H. specialize (Hc w1 eq_refl). specialize (Hk a w1 w' H). lia.
  - intros H. specialize (Hc w' H). lia.
  - discriminate.
Qed.

Lemma spends_get_pm (pt pi : Z) : spends 1 (get_pm pt pi).
Proof.
  intros w w'. unfold get_pm, init_pe, call_pgalloc, bind, read, write, ret.
  destruct (_ =? 0); [|intros [= <-]; lia].
  destruct (pgalloc (heap w)) as [[page h]|]; intros [= <-]; simpl; lia.
Qed.

Lemma spends_map_page_pml4 (t vpa ppa : Z) : spends 3 (map_page_pml4 t vpa ppa).
Proof.
  unfold map_page_pml4, map_page_pdpt, map_page_pd, map_page_pt.
  apply (spends_bind 1 2); [apply spends_get_pm | intros ?].
  apply (spends_bind 1 1); [apply spends_get_pm | intros ?].
  apply (spends_bind 1 0); [apply spends_get_pm | intros ?].
  intros w w' [= <-]. simpl. lia.
Qed.

Lemma spends_map_region_loop (n : nat) :
  forall (fuel : nat) (vra pra : Z),
  0 <= vra -> vra + Z.of_nat n * PAGE_SIZE < 2 ^ 64 ->
  spends (3 * n) (map_region_loop fuel vra (vra + Z.of_nat n * PAGE_SIZE) pra).
Proof.
  induction n as [|n IH]; intros fuel vra pra Hv Hve;
    (destruct fuel as [|fuel]; [intros w w'; discriminate|]); simpl map_region_loop.
  - replace (vra + Z.of_nat 0 * PAGE_SIZE) with vra by lia.
    rewrite Z.ltb_irrefl. apply spends_ret.
  - assert (Hlt : (vra <? vra + Z.of_nat (S n) * PAGE_SIZE) = true)
      by (apply Z.ltb_lt; unfold PAGE_SIZE; lia).
    rewrite Hlt. replace (3 * S n)%nat with (3 + 3 * n)%nat by lia.
    apply spends_bind; [apply spends_map_page_pml4 | intros _].
    rewrite (u64_small (vra + PAGE_SIZE)) by (unfold PAGE_SIZE in *; lia).
    replace (vra + Z.of_nat (S n) * PAGE_SIZE)
      with (vra + PAGE_SIZE + Z.of_nat n * PAGE_SIZE) by lia.
    apply IH; unfold PAGE_SIZE in *; lia.
Qed.

(** X9. [map_region] over [N] pages calls the allocator at most [3 * N]
    times, whether it returns or halts: each page costs at most one page
    directory pointer table, one page directory and one page table. *)
Theorem map_region_allocates_at_most (fuel : nat) (vra pra N : Z) (w w' : world) :
  0 <= vra -> 0 <= N -> vra + N * PAGE_SIZE < 2 ^ 64 ->
  final (map_region fuel vra pra N w) = Some w' ->
  (count_allocs (trace w') <= count_allocs (trace w) + 3 * Z.to_nat N)%nat.
Proof.
  intros Hv HN Hve. unfold map_region.
  rewrite u64_small by (unfold PAGE_SIZE in *; lia).
  rewrite <- (Z2Nat.id N) at 1 by assumption.
  apply spends_map_region_loop; rewrite ?Z2Nat.id; assumption.
Qed.

Lemma map_region_loop_frame (n : nat) :
  forall (fuel : nat) (vra pra : Z) (w w' : world),
  alloc_contract -> wf w ->
  0 <= vra -> vra + Z.of_nat n * PAGE_SIZE < 2 ^ 64 ->
  final (map_region_loop fuel vra (vra + Z.of_nat n * PAGE_SIZE) pra w) = Some w' ->
  same_walks_but (region_paths vra (Z.of_nat n)) w w'.
Proof.
  induction n as [|n IH]; intros fuel vra pra w w' Hc Hwf Hv Hve;
    (destruct fuel as [|fuel]; [discriminate|]); simpl map_region_loop.
  - replace (vra + Z.of_nat 0 * PAGE_SIZE) with vra by lia.
    rewrite Z.ltb_irrefl. intros [= <-] q _ _ _. reflexivity.
  - assert (Hlt : (vra <? vra + Z.of_nat (S n) * PAGE_SIZE) = true)
      by (apply Z.ltb_lt; unfold PAGE_SIZE; lia).
    rewrite Hlt. unfold bind.
    assert (Hout : forall q, ~ region_paths vra (Z.of_nat (S n)) q ->
              q <> indices vra /\ ~ region_paths (vra + PAGE_SIZE) (Z.of_nat n) q).
    { intros q Hq. split.
      - intros ->. apply Hq. exists 0. split; [lia|]. f_equal. lia.
      - intros (k & Hk & ->). apply Hq. exists (k + 1). split; [lia|].
        f_equal. lia. }
    destruct (map_page_pml4_spec w vra pra Hc Hwf)
      as [(w1 & e & Hrun & Hwf1 & _ & Hs1 & _) | (w1 & Hrun & _ & _ & Hs1 & _)];
      rewrite Hrun.
    2:{ intros [= <-] q Hq Hlq _. apply Hs1; tauto. }
    rewrite (u64_small (vra + PAGE_SIZE)) by (unfold PAGE_SIZE in *; lia).
    replace (vra + Z.of_nat (S n) * PAGE_SIZE)
      with (vra + PAGE_SIZE + Z.of_nat n * PAGE_SIZE) by lia.
    intros Hfin q Hq Hlq Ho. destruct (Hout q Ho) as [Ho1 Ho2].
    rewrite (IH fuel (vra + PAGE_SIZE) (u64 (pra + PAGE_SIZE)) w1 w' Hc Hwf1
               ltac:(unfold PAGE_SIZE; lia) ltac:(unfold PAGE_SIZE in *; lia)
               Hfin q Hq Hlq Ho2).
    apply Hs1; try assumption. congruence.
Qed.

(** An address below [2^48] whose page is not one of the [N] pages from
    that of [V] on has another index path than each of them. *)
Lemma outside_region_paths (V N va : Z) :
  0 <= V -> 0 <= N -> V + N * PAGE_SIZE <= 2 ^ 48 ->
  0 <= va < 2 ^ 48 ->
  va / PAGE_SIZE < V / PAGE_SIZE \/ V / PAGE_SIZE + N <= va / PAGE_SIZE ->
  ~ region_paths V N (indices va).
Proof.
  intros HV HN HVe Hva Hout (k & Hk & E). apply indices_page in E.
  unfold PAGE_SIZE in *. rewrite Z.div_add in E by lia.
  change (2 ^ 48) with 281474976710656 in *.
  change (2 ^ 36) with 68719476736 in *.
  clear -E Hk Hva HVe HV HN Hout.
  revert E. Z.div_mod_to_equations. lia.
Qed.

Lemma map_region_frame (fuel : nat) (V P N : Z) (w w' : world) :
  alloc_contract -> wf w ->
  0 <= V -> 0 <= N -> V + N * PAGE_SIZE <= 2 ^ 48 ->
  final (map_region fuel V P N w) = Some w' ->
  same_walks_but (region_paths V N) w w'.
Proof.
  intros Hc Hwf HV HN HVe Hfin.
  unfold map_region in Hfin.
  assert (Hlt : V + N * PAGE_SIZE < 2 ^ 64).
  { unfold PAGE_SIZE in *. change (2 ^ 48) with 281474976710656 in *.
    change (2 ^ 64) with 18446744073709551616. lia. }
  rewrite u64_small in Hfin by (unfold PAGE_SIZE in *; lia).
  rewrite <- (Z2Nat.id N) in Hfin at 1 by assumption.
  apply map_region_loop_frame in Hfin; try assumption.
  - rewrite Z2Nat.id in Hfin by assumption. exact Hfin.
  - rewrite Z2Nat.id by assumption. assumption.
Qed.

(** X10. [map_region] touches no page but its own: from a well-formed
    state, for a region of [N] pages that ends within [2^48], when the
    call ends (by return or by a halt) every address below [2^48] whose
    page is not one of the [N] pages from that of [V] on walks as it did
    before.  Nothing is asked of the physical address. *)
Theorem map_region_leaves_other_pages (fuel : nat) (V P N : Z) (w w' : world) :
  alloc_contract -> wf w ->
  0 <= V -> 0 <= N -> V + N * PAGE_SIZE <= 2 ^ 48 ->
  final (map_region fuel V P N w) = Some w' ->
  forall va, 0 <= va < 2 ^ 48 ->
    va / PAGE_SIZE < V / PAGE_SIZE \/ V / PAGE_SIZE + N <= va / PAGE_SIZE ->
    translate w' va = translate w va.
Proof.
  intros Hc Hwf HV HN HVe Hfin va Hva Hout.
  pose proof (map_region_frame fuel V P N w w' Hc Hwf HV HN HVe Hfin) as Hs.
  unfold translate. apply Hs.
  - apply linaddr_indices_valid.
  - reflexivity.
  - apply outside_region_paths; assumption.
Qed.

(** X11. [map_region] keeps the tables well formed for every argument
    (a wrapping end address, a misaligned or oversized physical address,
    a negative count): entered in a well-formed state it ends, by return
    or by a halt, in a well-formed state, and no table reachable below the
    root is a frame the allocator did not hand out. *)
Theorem map_region_keeps_tables (fuel : nat) (vra pra np : Z) (w w' : world) :
  alloc_contract -> wf w ->
  final (map_region fuel vra pra np w) = Some w' ->
  wf w' /\ (links_allocated w -> links_allocated w').
Proof.
  intros Hc Hwf Hfin.
  pose proof (map_region_loop_kept fuel vra (u64 (vra + np * PAGE_SIZE)) pra w Hc Hwf)
    as Hk.
  unfold map_region in Hfin.
  destruct (map_region_loop fuel vra (u64 (vra + np * PAGE_SIZE)) pra w)
    as [[] w1|w1|]; simpl in *; try discriminate;
    injection Hfin as <-; tauto.
Qed.

(** X12. The loop of [map_region] ends for every input: the end address
    differs from the start by a multiple of the page size even when the
    sum wraps, so the loop meets it after [(vrae - vra) / 4096] turns
    (none when the end is not above the start, never more than [2^52]);
    with more fuel than turns the model does not run out of it. *)
Theorem map_region_terminates (fuel : nat) (vra pra np : Z) (w : world) :
  0 <= vra < 2 ^ 64 ->
  Z.max 0 ((u64 (vra + np * PAGE_SIZE) - vra) / PAGE_SIZE) < Z.of_nat fuel ->
  map_region fuel vra pra np w <> OutOfFuel
  /\ Z.max 0 ((u64 (vra + np * PAGE_SIZE) - vra) / PAGE_SIZE) < 2 ^ 52.
Proof.
  intros Hv Hfuel.
  assert (Hr : 0 <= u64 (vra + np * PAGE_SIZE) < 2 ^ 64)
    by (apply Z.mod_pos_bound; lia).
  assert (Hm : (u64 (vra + np * PAGE_SIZE) - vra) mod PAGE_SIZE = 0).
  { unfold u64, PAGE_SIZE. clear Hr Hfuel.
    change (2 ^ 64) with 18446744073709551616.
    Z.div_mod_to_equations. lia. }
  split.
  - unfold map_region.
    apply (map_region_loop_returns
             (Z.to_nat (Z.max 0 ((u64 (vra + np * PAGE_SIZE) - vra) / PAGE_SIZE)))).
    + lia.
    + lia.
    + right. assumption.
    + rewrite Z2Nat.id by lia. unfold PAGE_SIZE in Hm |- *. revert Hm.
      generalize (u64 (vra + np * 4096) - vra). intros x Hm.
      Z.div_mod_to_equations. lia.
    + lia.
  - unfold PAGE_SIZE in Hr |- *. revert Hr.
    generalize (u64 (vra + np * 4096)). intros x Hr.
    change (2 ^ 64) with 18446744073709551616 in Hv, Hr.
    change (2 ^ 52) with 4503599627370496.
    Z.div_mod_to_equations. lia.
Qed.

(** ** More about the policy and the entry point *)

(** X13. A memory map without a runtime, loader-code or loader-data
    descriptor makes [map_efi_regions] a no-op: it returns at once in the
    state it was called in, with no store and no allocation, however
    long the map. *)
Theorem map_efi_regions_nothing_selected (fuel : nat) (mm : EfiMemoryMap) (w : world) :
  Forall (fun md => selected md = false) mm ->
  map_efi_regions fuel mm w = Done tt w.
Proof.
  induction 1 as [|md mm Hmd _ IH]; [reflexivity|].
  simpl. unfold bind. rewrite map_efi_region_selected, Hmd. exact IH.
Qed.

Lemma covered_perm (mm mm' : EfiMemoryMap) (a : Z) :
  Permutation mm mm' -> covered mm a -> covered mm' a.
Proof.
  intros Hp (md & Hin & Hs & Hr). exists md.
  split; [eapply Permutation_in; eassumption | split; assumption].
Qed.

(** X14. The order of the descriptors does not matter to what is mapped:
    two runs of [map_efi_regions] from the same well-formed state with
    nothing mapped, on memory maps that are permutations of each other
    (selected descriptors sane), that both return give every address
    below [2^48] the same translation. *)
Theorem map_efi_regions_order_irrelevant (fuel : nat) (mm mm' : EfiMemoryMap)
    (w w1 w2 : world) :
  alloc_contract -> wf w ->
  (forall va, 0 <= va < 2 ^ 48 -> translate w va = None) ->
  Forall (fun md => selected md = true ->
                    sane md /\ NumberOfPages md < Z.of_nat fuel) mm ->
  Permutation mm mm' ->
  map_efi_regions fuel mm w = Done tt w1 ->
  map_efi_regions fuel mm' w = Done tt w2 ->
  forall va, 0 <= va < 2 ^ 48 -> translate w1 va = translate w2 va.
Proof.
  intros Hc Hwf Hnone Hsane Hperm Hrun1 Hrun2 va Hva.
  assert (Hm : maps_exactly (fun _ => False) w).
  { intros x Hx. split; [contradiction|]. intros _. apply Hnone. assumption. }
  assert (Hsane' : Forall (fun md => selected md = true ->
                     sane md /\ NumberOfPages md < Z.of_nat fuel) mm').
  { rewrite <- Hperm. exact Hsane. }
  destruct (map_efi_regions_policy_from fuel mm w _ Hc Hwf Hm Hsane)
    as [(x1 & Hx1 & _ & Hm1) | (x1 & Hx1 & _)];
    rewrite Hx1 in Hrun1; [|discriminate].
  destruct (map_efi_regions_policy_from fuel mm' w _ Hc Hwf Hm Hsane')
    as [(x2 & Hx2 & _ & Hm2) | (x2 & Hx2 & _)];
    rewrite Hx2 in Hrun2; [|discriminate].
  injection Hrun1 as <-. injection Hrun2 as <-.
  destruct (Hm1 va Hva) as [Hin1 Hout1], (Hm2 va Hva) as [Hin2 Hout2].
  destruct (decide (translate x1 va = translate x2 va)) as [E|N]; [exact E|].
  exfalso.
  assert (Hnc : ~ covered mm va).
  { intros Hcov. apply N. rewrite Hin1 by (right; assumption).
    rewrite Hin2; [reflexivity|]. right. eapply covered_perm; eassumption. }
  apply N. rewrite Hout1 by tauto.
  rewrite Hout2; [reflexivity|]. intros [[]|Hcov]. apply Hnc.
  eapply covered_perm; [symmetry|]; eassumption.
Qed.

Lemma map_region_translates (fuel : nat) (V P N : Z) (w w' : world) :
  alloc_contract -> wf w ->
  0 <= V -> 0 <= P -> P mod PAGE_SIZE = 0 -> 0 <= N < 2 ^ 31 ->
  V + N * PAGE_SIZE < 2 ^ 64 -> P + N * PAGE_SIZE <= 2 ^ 52 ->
  N < Z.of_nat fuel ->
  map_region fuel V P N w = Done tt w' ->
  forall i, 0 <= i < N ->
    translate w' (V + i * PAGE_SIZE) = Some (P + i * PAGE_SIZE).
Proof.
  intros Hc Hwf HV HP HPa HN HVe HPe Hfuel Hrun.
  unfold map_region in Hrun.
  rewrite u64_small in Hrun by (unfold PAGE_SIZE in *; lia).
  destruct (map_region_loop_spec (Z.to_nat N) fuel V P w)
    as [(x & Hx & _ & Ht) | (x & Hx & _)];
    rewrite ?Z2Nat.id by lia; try assumption; try lia.
  - rewrite Z2Nat.id in Hx, Ht by lia. rewrite Hx in Hrun.
    injection Hrun as <-. exact Ht.
  - rewrite Z2Nat.id in Hx by lia. rewrite Hx in Hrun. discriminate.
Qed.

(** X15. [map_framebuffer] identity-maps [size / 4096 + 1] pages from the
    base of the framebuffer: when it returns (base page-aligned, the
    pages within [2^52], well-formed state), every address from the base
    up to the end of those pages translates to its own page.  The pages
    reach past [base + size]: one whole page more when the size is a
    multiple of the page size. *)
Theorem map_framebuffer_covers (fuel : nat) (fb : Framebuffer) (w w' : world) :
  alloc_contract -> wf w ->
  0 <= fb_base fb -> fb_base fb mod PAGE_SIZE = 0 ->
  0 <= fb_size fb -> fb_size fb / PAGE_SIZE + 1 < 2 ^ 31 ->
  fb_base fb + (fb_size fb / PAGE_SIZE + 1) * PAGE_SIZE <= 2 ^ 52 ->
  fb_size fb / PAGE_SIZE + 1 < Z.of_nat fuel ->
  map_framebuffer fuel fb w = Done tt w' ->
  fb_base fb + fb_size fb < fb_base fb + (fb_size fb / PAGE_SIZE + 1) * PAGE_SIZE
  /\ forall a,
       fb_base fb <= a < fb_base fb + (fb_size fb / PAGE_SIZE + 1) * PAGE_SIZE ->
       translate w' a = Some (a - a mod PAGE_SIZE).
Proof.
  intros Hc Hwf Hb Hba Hs Hn Hbe Hfuel Hrun.
  split; [unfold PAGE_SIZE in *; clear -Hs; Z.div_mod_to_equations; lia|].
  intros a Ha.
  unfold map_framebuffer, map_region_id in Hrun.
  assert (Hn0 : 0 <= fb_size fb / PAGE_SIZE + 1 < 2 ^ 31).
  { split; [|assumption]. unfold PAGE_SIZE in *. clear -Hs.
    Z.div_mod_to_equations. lia. }
  rewrite to_int_small in Hrun by assumption.
  pose proof (map_region_translates fuel _ _ _ w w' Hc Hwf Hb Hb Hba Hn0
                ltac:(unfold PAGE_SIZE in *; lia) Hbe Hfuel Hrun) as Ht.
  set (N := fb_size fb / PAGE_SIZE + 1) in *.
  set (k := (a - fb_base fb) / 4096).
  assert (Hk : 0 <= k < N /\ fb_base fb + k * PAGE_SIZE = a - a mod PAGE_SIZE
               /\ (fb_base fb + k * PAGE_SIZE) / 4096 = a / 4096).
  { unfold k, PAGE_SIZE in *. clear -Hba Ha Hb Hn0.
    Z.div_mod_to_equations. lia. }
  destruct Hk as (Hk1 & Hk2 & Hk3).
  unfold translate. rewrite <- (same_page_indices _ _ Hk3), <- Hk2.
  apply Ht. assumption.
Qed.

(** X16. [map_kernel] maps the whole pages of the kernel and no more:
    [kernel_size >> 12] pages, so that when it returns each of these
    pages of the virtual range translates to the matching physical page,
    while the addresses of a last, partial page keep the translation
    they had (virtual range page-aligned and within [2^48]). *)
Theorem map_kernel_whole_pages (fuel : nat) (kernel_va kernel_pa kernel_size : Z)
    (w w' : world) :
  alloc_contract -> wf w ->
  0 <= kernel_va -> kernel_va mod PAGE_SIZE = 0 ->
  0 <= kernel_pa -> kernel_pa mod PAGE_SIZE = 0 ->
  0 <= kernel_size -> kernel_size / PAGE_SIZE < 2 ^ 31 ->
  kernel_va + kernel_size <= 2 ^ 48 -> kernel_pa + kernel_size <= 2 ^ 52 ->
  kernel_size / PAGE_SIZE < Z.of_nat fuel ->
  map_kernel fuel kernel_va kernel_pa kernel_size w = Done tt w' ->
  (forall i, 0 <= i < kernel_size / PAGE_SIZE ->
     translate w' (kernel_va + i * PAGE_SIZE) = Some (kernel_pa + i * PAGE_SIZE))
  /\ (forall a,
        kernel_va + kernel_size / PAGE_SIZE * PAGE_SIZE <= a < kernel_va + kernel_size ->
        translate w' a = translate w a).
Proof.
  intros Hc Hwf Hv Hva Hp Hpa Hs Hn Hve Hpe Hfuel Hrun.
  unfold map_kernel in Hrun.
  rewrite Z.shiftr_div_pow2 in Hrun by (unfold PAGE_SIZE_BITS; lia).
  change (2 ^ PAGE_SIZE_BITS) with PAGE_SIZE in Hrun.
  assert (Hn0 : 0 <= kernel_size / PAGE_SIZE < 2 ^ 31).
  { split; [|assumption]. apply Z.div_pos; unfold PAGE_SIZE; lia. }
  rewrite to_int_small in Hrun by assumption.
  assert (Hfloor : kernel_size / PAGE_SIZE * PAGE_SIZE <= kernel_size).
  { unfold PAGE_SIZE. clear -Hs. Z.div_mod_to_equations. lia. }
  split.
  - apply (map_region_translates fuel _ _ _ w w'); try assumption.
    + change (2 ^ 48) with 281474976710656 in *.
      change (2 ^ 64) with 18446744073709551616. lia.
    + lia.
  - intros a Ha.
    assert (Hfin : final (map_region fuel kernel_va kernel_pa
                            (kernel_size / PAGE_SIZE) w) = Some w')
      by (rewrite Hrun; reflexivity).
    apply map_region_frame in Hfin; try assumption; try lia.
    unfold translate. apply Hfin; [apply linaddr_indices_valid | reflexivity |].
    apply outside_region_paths; try assumption; try lia.
    + unfold PAGE_SIZE in *. change (2 ^ 48) with 281474976710656 in *. lia.
    + right. unfold PAGE_SIZE in *. clear -Ha Hva Hv Hs.
      Z.div_mod_to_equations. lia.
Qed.

(** X17. A kernel smaller than one page is not mapped at all:
    [map_kernel] with [kernel_size < 4096] returns in the state it was
    called in. *)
Theorem map_kernel_below_one_page (fuel : nat) (kernel_va kernel_pa kernel_size : Z)
    (w : world) :
  0 <= kernel_va < 2 ^ 64 -> 0 <= kernel_size < PAGE_SIZE -> (0 < fuel)%nat ->
  map_kernel fuel kernel_va kernel_pa kernel_size w = Done tt w.
Proof.
  intros Hv Hs Hfuel. unfold map_kernel, map_region.
  rewrite Z.shiftr_div_pow2 by (unfold PAGE_SIZE_BITS; lia).
  change (2 ^ PAGE_SIZE_BITS) with PAGE_SIZE.
  rewrite Z.div_small by assumption.
  change (to_int 0) with 0. rewrite Z.mul_0_l, Z.add_0_r, u64_small by assumption.
  destruct fuel as [|fuel]; [lia|]. simpl. rewrite Z.ltb_irrefl. reflexivity.
Qed.

Lemma wf_same_tables (w w' : world) :
  mem w' = mem w -> heap w' = heap w -> wf w -> wf w'.
Proof.
  intros Hm Hh [Hroot Htree Hok Hfresh Hzero Hlow].
  constructor; rewrite ?Hm, ?Hh; assumption.
Qed.

(** X18. [setup_paging] as a whole: entered with a page-aligned root and
    an allocator whose frames are proper, fresh and zero-filled, whatever
    the root held, on a memory map whose selected descriptors are sane,
    it either returns with CR3 holding the address of the root and,
    below [2^48], exactly the addresses of the selected regions mapped,
    each to its own page, or it halts in the exhausted allocator with
    CR3 as it was. *)
Theorem setup_paging_maps_selected (fuel : nat) (mm : EfiMemoryMap)
    (fb : Framebuffer) (kernel_pa kernel_va : Z) (w : world) :
  alloc_contract -> boot_ok w ->
  Forall (fun md => selected md = true ->
                    sane md /\ NumberOfPages md < Z.of_nat fuel) mm ->
  (exists w',
      setup_paging fuel mm fb kernel_pa kernel_va w = Done tt w'
      /\ cr3 w' = u64 pml4 /\ wf w'
      /\ forall va, 0 <= va < 2 ^ 48 ->
           (covered mm va -> translate w' va = Some (va - va mod PAGE_SIZE))
           /\ (~ covered mm va -> translate w' va = None))
  \/ (exists w',
      setup_paging fuel mm fb kernel_pa kernel_va w = Halted w'
      /\ pgalloc (heap w') = None /\ cr3 w' = cr3 w).
Proof.
  intros Hc Hboot Hsane.
  destruct (memset_root w Hboot)
    as (w1 & Hms & Hh & Hc1 & Hwf1 & _ & Hm1).
  destruct (setup_paging_unfold fuel mm fb kernel_pa kernel_va w)
    as (w1' & zs & Hms' & _ & _ & _ & _ & _ & _ & ->).
  rewrite Hms in Hms'. injection Hms' as <-.
  pose proof (quietly_map_efi_regions fuel mm w1) as Hq.
  destruct (map_efi_regions_policy_from fuel mm w1 _ Hc Hwf1 Hm1 Hsane)
    as [(w2 & Hrun & Hwf2 & Hm2) | (w2 & Hrun & Hn)]; rewrite Hrun in Hq |- *.
  - left. eexists. split; [reflexivity|]. split; [reflexivity|].
    split; [apply (wf_same_tables w2); [reflexivity|reflexivity|assumption]|].
    intros va Hva. destruct (Hm2 va Hva) as [Hin Hout].
    split; intros H; [apply Hin | apply Hout]; tauto.
  - right. exists w2. split; [reflexivity|]. split; [assumption|].
    destruct (Hq w2 eq_refl) as [E _]. congruence.
Qed.

(** X19. Activation does not depend on anything being mapped: on a memory
    map without a selected descriptor [setup_paging] returns, from any
    state and without calling the allocator, with CR3 holding the address
    of the root and with no address at all translated, not even those of
    the running code. *)
Theorem setup_paging_nothing_selected (fuel : nat) (mm : EfiMemoryMap)
    (fb : Framebuffer) (kernel_pa kernel_va : Z) (w : world) :
  Forall (fun md => selected md = false) mm ->
  exists w',
    setup_paging fuel mm fb kernel_pa kernel_va w = Done tt w'
    /\ cr3 w' = u64 pml4 /\ heap w' = heap w
    /\ forall va, translate w' va = None.
Proof.
  intros Hsel.
  destruct (setup_paging_unfold fuel mm fb kernel_pa kernel_va w)
    as (w1 & zs & _ & Hh & _ & _ & _ & _ & Hz & ->).
  assert (Hskip : map_efi_regions fuel mm w1 = Done tt w1).
  { clear Hz Hh. induction Hsel as [|md mm Hmd _ IH]; [reflexivity|].
    simpl. unfold bind. rewrite map_efi_region_selected, Hmd. exact IH. }
  rewrite Hskip.
  eexists. split; [reflexivity|]. split; [reflexivity|]. split; [exact Hh|].
  intros va. unfold translate, indices. cbn [descend mem].
  rewrite step_zero_frame; [reflexivity | assumption |].
  apply (field_get_range _ 9). lia.
Qed.

(** ** [memset] *)

(** X20. [memset], for any destination and any length: it returns its
    first argument; afterwards every byte of the range
    [dest, dest + len) holds [(uint8_t) e], every byte outside the range
    holds what it held, and the allocator and CR3 are as before. *)
Theorem memset_fills_range (dest e len : Z) (w : world) :
  0 <= len ->
  exists w',
    memset dest e len w = Done dest w'
    /\ heap w' = heap w /\ cr3 w' = cr3 w
    /\ (forall a, dest <= a < dest + len -> byte_at (mem w') a = e mod 256)
    /\ (forall a, ~ dest <= a < dest + len ->
          byte_at (mem w') a = byte_at (mem w) a).
Proof.
  intros Hlen. unfold memset.
  destruct (memset_loop_spec (Z.to_nat len) e dest w)
    as (w' & evs & Hrun & Hh & Hc & _ & _ & _ & Hin & _).
  rewrite Z2Nat.id in Hin by assumption.
  exists w'. unfold bind, ret. rewrite Hrun.
  split; [reflexivity|]. split; [assumption|]. split; [assumption|]. split.
  - intros a Ha. rewrite Hin.
    destruct (decide (dest <= a < dest + len)); [reflexivity|contradiction].
  - intros a Ha. rewrite Hin.
    destruct (decide (dest <= a < dest + len)); [contradiction|reflexivity].
Qed.

(** X21. Whatever a Present entry holds, the address [get_pm] returns for
    it is page-aligned and below [2^52]: a table reached through an
    entry never straddles two frames. *)
Theorem get_pm_hit_is_frame (pt pi c : Z) (w w' : world) :
  Pe.is_present (load (mem w) (pe_addr pt pi)) = true ->
  get_pm pt pi w = Done c w' ->
  0 <= c < 2 ^ 52 /\ c mod PAGE_SIZE = 0.
Proof.
  intros Hp Hrun. rewrite (get_pm_hit _ _ _ Hp) in Hrun.
  injection Hrun as <- _.
  destruct (frame_address_aligned (load (mem w) (pe_addr pt pi))) as [Hr Ha].
  split; [|exact Ha].
  change (2 ^ 40) with 1099511627776 in Hr.
  change (2 ^ 52) with 4503599627370496. lia.
Qed.

(** ** Edges of [map_region] *)

(** X22. A region whose end reaches the top of the address space is
    silently not mapped: when [vra + np*4096] is [2^64] or more (up to
    one wrap), the end address wraps to or below the start, the loop is
    not entered and [map_region] returns in the state it was called in.
    So the last page of the address space cannot be mapped. *)
Theorem map_region_end_wraps (fuel : nat) (vra pra np : Z) (w : world) :
  0 <= vra < 2 ^ 64 ->
  2 ^ 64 <= vra + np * PAGE_SIZE <= 2 ^ 64 + vra ->
  (0 < fuel)%nat ->
  map_region fuel vra pra np w = Done tt w.
Proof.
  intros Hv He Hfuel. unfold map_region.
  assert (Hu : u64 (vra + np * PAGE_SIZE) = vra + np * PAGE_SIZE - 2 ^ 64).
  { unfold u64. symmetry. apply Z.mod_unique_pos with (q := 1); lia. }
  rewrite Hu. destruct fuel as [|fuel]; [lia|]. simpl.
  destruct (Z.ltb_spec vra (vra + np * PAGE_SIZE - 2 ^ 64)); [lia|]. reflexivity.
Qed.

Lemma map_page_pml4_mapped (w : world) (vpa ppa : Z) :
  wf w ->
  translate w vpa <> None ->
  exists w',
    map_page_pml4 pml4 vpa ppa w = Done tt w'
    /\ heap w' = heap w
    /\ count_allocs (trace w') = count_allocs (trace w).
Proof.
  intros Hwf.
  pose proof (linaddr_indices_valid vpa) as Hv. unfold indices, valid_path in Hv.
  apply Forall_cons in Hv. destruct Hv as [H4 Hv].
  apply Forall_cons in Hv. destruct Hv as [H3 Hv].
  apply Forall_cons in Hv. destruct Hv as [H2 _].
  unfold translate, indices. cbv zeta.
  set (i4 := LinAddr.pml4 (linaddr vpa)) in *.
  set (i3 := LinAddr.pdpt (linaddr vpa)) in *.
  set (i2 := LinAddr.pd (linaddr vpa)) in *.
  set (i1 := LinAddr.pt (linaddr vpa)).
  cbn [descend].
  destruct (step (mem w) pml4 i4) as [t4|] eqn:E4; [|congruence].
  destruct (step (mem w) t4 i3) as [t3|] eqn:E3; [|congruence].
  destruct (step (mem w) t3 i2) as [t2|] eqn:E2; [|congruence].
  intros _.
  assert (D1 : descend (mem w) pml4 [i4] = Some t4) by (cbn [descend]; rewrite E4; reflexivity).
  assert (D2 : descend (mem w) pml4 [i4; i3] = Some t3)
    by (cbn [descend]; rewrite E4, E3; reflexivity).
  unfold map_page_pml4, bind. fold i4.
  rewrite (get_pm_follows w [] pml4 i4 t4 Hwf valid_path_nil ltac:(simpl; lia) H4 eq_refl E4).
  unfold map_page_pdpt, bind. fold i3.
  rewrite (get_pm_follows w [i4] t4 i3 t3 Hwf ltac:(valid_path_tac) ltac:(simpl; lia) H3 D1 E3).
  unfold map_page_pd, bind. fold i2.
  rewrite (get_pm_follows w [i4; i3] t3 i2 t2 Hwf ltac:(valid_path_tac) ltac:(simpl; lia) H2 D2 E2).
  eexists. split; [reflexivity|]. split; reflexivity.
Qed.

Lemma map_region_loop_remap (n : nat) :
  forall (fuel : nat) (vra pra : Z) (w : world),
  alloc_contract -> wf w -> (n < fuel)%nat ->
  0 <= vra -> vra + Z.of_nat n * PAGE_SIZE < 2 ^ 64 -> Z.of_nat n <= 2 ^ 36 ->
  (forall k, 0 <= k < Z.of_nat n -> translate w (vra + k * PAGE_SIZE) <> None) ->
  exists w',
    map_region_loop fuel vra (vra + Z.of_nat n * PAGE_SIZE) pra w = Done tt w'
    /\ heap w' = heap w
    /\ count_allocs (trace w') = count_allocs (trace w).
Proof.
  induction n as [|n IH]; intros fuel vra pra w Hc Hwf Hfuel Hv Hve Hn Hmapped;
    (destruct fuel as [|fuel]; [lia|]); simpl map_region_loop.
  - replace (vra + Z.of_nat 0 * PAGE_SIZE) with vra by lia.
    rewrite Z.ltb_irrefl. exists w. repeat split; reflexivity.
  - assert (Hlt : (vra <? vra + Z.of_nat (S n) * PAGE_SIZE) = true)
      by (apply Z.ltb_lt; unfold PAGE_SIZE; lia).
    rewrite Hlt. unfold bind.
    assert (H0 : translate w vra <> None).
    { replace vra with (vra + 0 * PAGE_SIZE) by lia. apply Hmapped. lia. }
    destruct (map_page_pml4_mapped w vra pra Hwf H0) as (w1 & Hrun & Hh1 & Ha1).
    destruct (map_page_pml4_spec w vra pra Hc Hwf)
      as [(x & e & Hx & Hwf1 & _ & Hs1 & _) | (x & Hx & _)];
      rewrite Hx in Hrun; [|discriminate].
    injection Hrun as ->. rewrite Hx.
    rewrite (u64_small (vra + PAGE_SIZE)) by (unfold PAGE_SIZE in *; lia).
    replace (vra + Z.of_nat (S n) * PAGE_SIZE)
      with (vra + PAGE_SIZE + Z.of_nat n * PAGE_SIZE) by lia.
    destruct (IH fuel (vra + PAGE_SIZE) (u64 (pra + PAGE_SIZE)) w1)
      as (w' & Hrun' & Hh' & Ha'); try assumption;
      try (unfold PAGE_SIZE in *; lia).
    + intros k Hk. unfold translate. rewrite Hs1.
      * replace (vra + PAGE_SIZE + k * PAGE_SIZE)
          with (vra + (k + 1) * PAGE_SIZE) by lia.
        apply Hmapped. lia.
      * apply linaddr_indices_valid.
      * reflexivity.
      * intros E. replace vra with (vra + 0 * PAGE_SIZE) in E at 1 by lia.
        replace (vra + PAGE_SIZE + k * PAGE_SIZE)
          with (vra + (k + 1) * PAGE_SIZE) in E by lia.
        apply indices_distinct in E; lia.
    + exists w'. split; [assumption|]. split; congruence.
Qed.

(** X23. Mapping over pages that are all mapped already costs nothing and
    cannot fail: from a well-formed state, if every page of the region
    translates before the call, [map_region] returns (it cannot halt:
    the allocator is not called) with the allocator in the state it was
    in. *)
Theorem map_region_remap_allocates_nothing (fuel : nat) (V P N : Z) (w : world) :
  alloc_contract -> wf w ->
  0 <= V -> 0 <= N <= 2 ^ 36 -> V + N * PAGE_SIZE < 2 ^ 64 ->
  N < Z.of_nat fuel ->
  (forall i, 0 <= i < N -> translate w (V + i * PAGE_SIZE) <> None) ->
  exists w',
    map_region fuel V P N w = Done tt w'
    /\ heap w' = heap w
    /\ count_allocs (trace w') = count_allocs (trace w).
Proof.
  intros Hc Hwf HV HN HVe Hfuel Hmapped. unfold map_region.
  rewrite u64_small by (unfold PAGE_SIZE in *; lia).
  destruct (map_region_loop_remap (Z.to_nat N) fuel V P w)
    as (w' & Hrun & Hh & Ha); rewrite ?Z2Nat.id by lia;
    try assumption; try lia.
  rewrite Z2Nat.id in Hrun by lia.
  exists w'. split; [assumption|]. split; assumption.
Qed.

Lemma map_page_pml4_keeps_mapped (w w' : world) (vpa ppa : Z) :
  alloc_contract -> wf w ->
  final (map_page_pml4 pml4 vpa ppa w) = Some w' ->
  wf w' /\ forall va, translate w va <> None -> translate w' va <> None.
Proof.
  intros Hc Hwf Hfin.
  destruct (map_page_pml4_spec w vpa ppa Hc Hwf)
    as [(x & e & Hx & Hwf1 & _ & Hs1 & Hd1) | (x & Hx & Hwf1 & _ & Hs1 & _)];
    rewrite Hx in Hfin; injection Hfin as <-; (split; [assumption|]);
    intros va Hva; unfold translate in *.
  - destruct (decide (indices vpa = indices va)) as [E|N].
    + rewrite <- E, Hd1. discriminate.
    + rewrite Hs1; [assumption | apply linaddr_indices_valid | reflexivity | assumption].
  - rewrite Hs1; [assumption | apply linaddr_indices_valid | reflexivity | tauto].
Qed.

Lemma map_region_loop_keeps_mapped (fuel : nat) :
  forall (vra vrae pra : Z) (w w' : world),
  alloc_contract -> wf w ->
  final (map_region_loop fuel vra vrae pra w) = Some w' ->
  wf w' /\ forall va, translate w va <> None -> translate w' va <> None.
Proof.
  induction fuel as [|fuel IH]; intros vra vrae pra w w' Hc Hwf; simpl.
  - discriminate.
  - destruct (vra <? vrae); [|intros [= <-]; split; [assumption|tauto]].
    unfold bind.
    pose proof (map_page_pml4_keeps_mapped w) as Hp.
    destruct (map_page_pml4 pml4 vra pra w) as [[] w1|w1|] eqn:Hrun.
    + intros Hfin.
      destruct (Hp w1 vra pra Hc Hwf ltac:(rewrite Hrun; reflexivity)) as [Hwf1 Hk1].
      destruct (IH _ _ _ w1 w' Hc Hwf1 Hfin) as [Hwf' Hk'].
      split; [assumption|]. intros va Hva. apply Hk', Hk1, Hva.
    + intros [= <-].
      apply (Hp w1 vra pra Hc Hwf). rewrite Hrun. reflexivity.
    + discriminate.
Qed.

(** X24. The policy never unmaps: from a well-formed state, for any
    memory map, an address that translated before [map_efi_regions]
    translates when it ends, by return or by a halt (to its own page,
    if a selected region covers it, whatever it translated to before). *)
Theorem map_efi_regions_never_unmaps (fuel : nat) (mm : EfiMemoryMap) :
  forall (w w' : world),
  alloc_contract -> wf w ->
  final (map_efi_regions fuel mm w) = Some w' ->
  forall va, translate w va <> None -> translate w' va <> None.
Proof.
  induction mm as [|md mm IH]; intros w w' Hc Hwf; simpl.
  - intros [= <-]. tauto.
  - unfold bind. rewrite map_efi_region_selected.
    destruct (selected md).
    + unfold map_region_id, map_region.
      pose proof (map_region_loop_keeps_mapped fuel (PhysicalStart md)
                    (u64 (PhysicalStart md + to_int (NumberOfPages md) * PAGE_SIZE))
                    (PhysicalStart md) w) as Hr.
      destruct (map_region_loop fuel _ _ _ w) as [[] w1|w1|].
      * intros Hfin va Hva.
        destruct (Hr w1 Hc Hwf eq_refl) as [Hwf1 Hk1].
        apply (IH w1 w' Hc Hwf1 Hfin). apply Hk1, Hva.
      * intros [= <-] va Hva. apply (Hr w1 Hc Hwf eq_refl). assumption.
      * discriminate.
    + unfold ret. intros Hfin. apply (IH w w' Hc Hwf Hfin).
Qed.

End Paging.

(** ** The bump allocator keeps the contract *)

Lemma bump_contract (limit : Z) : alloc_contract (bump limit) (bump_owns limit).
Proof.
  intros h f h'. unfold bump, bump_owns, PAGE_SIZE.
  destruct (Z.leb_spec (h + 4096) limit); [|discriminate].
  intros [= <- <-]. split; [|split].
  - rewrite Z.sub_diag. split; [lia|]. split; [lia|reflexivity].
  - lia.
  - intros g (Hg1 & Hg2 & Hg3). split; [lia|]. split; [lia|].
    revert Hg3. Z.div_mod_to_equations. lia.
Qed.

Lemma load_empty (a : Z) : load ∅ a = 0.
Proof. unfold load. rewrite lookup_empty. reflexivity. Qed.

(** Among the events of a trace, the allocations are those listed. *)
Lemma allocated_in (t : Z) (tr : list event) :
  In (EvAlloc t) tr -> In t (allocated tr).
Proof.
  induction tr as [|ev tr IH]; [intros []|].
  intros [->|H]; [left; reflexivity|].
  destruct ev; simpl; auto.
Qed.

(** An all-zero memory, the root at [0x1000], the free frames from
    [0x2000] up to a limit within [2^40]. *)
Lemma bump_boot_ok (limit : Z) :
  limit <= 2 ^ 40 ->
  boot_ok 0x1000 (bump_owns limit) (World ∅ 0x2000 0 []).
Proof.
  intros Hl. split; [split; [lia|reflexivity]|].
  intros f (H1 & H2 & H3). simpl in *. unfold frame_ok, PAGE_SIZE in *.
  split; [split; [lia|]|split; [lia|]].
  - revert H3. Z.div_mod_to_equations. lia.
  - intros i _. apply load_empty.
Qed.

Lemma bump_boot_wf (limit : Z) :
  limit <= 2 ^ 40 ->
  wf 0x1000 (bump_owns limit) (World ∅ 0x2000 0 [])
  /\ forall va, translate 0x1000 (World ∅ 0x2000 0 []) va = None.
Proof.
  intros Hl. destruct (bump_boot_ok limit Hl) as [Hroot Hfree].
  destruct (wf_of_zero_root 0x1000 (bump_owns limit) (World ∅ 0x2000 0 []))
    as (Hwf & _ & _); try assumption.
  { intros i _. apply load_empty. }
  split; [assumption|].
  intros va. unfold translate, indices. simpl.
  unfold step. rewrite load_empty. reflexivity.
Qed.

(** ** The theorems at concrete inputs *)

(** C5 (the code at the failing input).  The page-aligned address [2^40]
    is below [2^52] and its frame number [2^28] fits the 40-bit field:
    [init_pe] stores it and the entry is Present.  Read back as [get_pm]
    does, with the shift made in the 40 bits of the field, it is 0. *)
Theorem pe_decode_loses_high_bits :
  let A := 2 ^ 40 in
  A mod PAGE_SIZE = 0
  /\ (A <? 2 ^ 52) = true
  /\ Pe.phy (Pe.init 0 A) = Z.shiftr A 12
  /\ Pe.is_present (Pe.init 0 A) = true
  /\ Pe.frame_address (Pe.init 0 A) = 0.
Proof. vm_compute. repeat split; reflexivity. Qed.

(** C8 (the code at the failing input).  Entry 3 of the root is the entry
    [init_pe] writes for the frame at [2^40]: it is Present and its
    frame-number field shifted left by 12 is [2^40].  [get_pm] leaves the
    state alone but returns 0, the shift cut to 40 bits.  Likewise on an
    entry of all ones, whose field shifted left by 12 is
    [0xffffffffff000], it returns [0xfffffff000]. *)
Theorem get_pm_hit_cuts_address :
  let w := World {[ 0x1018 := Pe.init 0 (2 ^ 40) ]} 0x2000 0 [] in
  let w' := World {[ 0x1018 := 2 ^ 64 - 1 ]} 0x2000 0 [] in
  Pe.is_present (load (mem w) (pe_addr 0x1000 3)) = true
  /\ Z.shiftl (Pe.phy (load (mem w) (pe_addr 0x1000 3))) 12 = 2 ^ 40
  /\ get_pm (bump 0x100000) 0x1000 3 w = Done 0 w
  /\ Pe.is_present (load (mem w') (pe_addr 0x1000 3)) = true
  /\ Z.shiftl (Pe.phy (load (mem w') (pe_addr 0x1000 3))) 12 = 0xffffffffff000
  /\ get_pm (bump 0x100000) 0x1000 3 w' = Done 0xfffffff000 w'.
Proof. vm_compute. repeat split; reflexivity. Qed.

(** C3 (the code at the failing input).  The allocator's next frame is at
    [2^40].  The first call on the absent entry 0 of the root returns
    [2^40]; the second call with the same table and index allocates
    nothing but returns 0. *)
Theorem get_pm_second_call_differs :
  let w := World ∅ (2 ^ 40) 0 [] in
  exists w1,
    get_pm (bump (2 ^ 41)) 0x1000 0 w = Done (2 ^ 40) w1
    /\ get_pm (bump (2 ^ 41)) 0x1000 0 w1 = Done 0 w1
    /\ count_allocs (trace w1) = 1%nat.
Proof.
  eexists. split; [vm_compute; reflexivity|].
  split; vm_compute; reflexivity.
Qed.

(** C7 as stated fails: on an entry whose User/Supervisor bit is set,
    [init_pe] leaves the bit set instead of zero. *)
Lemma init_pe_keeps_other_fields_cex :
  ~ (Pe.phy (Pe.init 4 0x1000) = Z.shiftr 0x1000 12
     /\ Pe.p (Pe.init 4 0x1000) = 1 /\ Pe.rw (Pe.init 4 0x1000) = 1
     /\ Pe.us (Pe.init 4 0x1000) = 0).
Proof. intros (_ & _ & _ & H). vm_compute in H. discriminate H. Qed.

(** A hit on entry 3 of the root. *)
Lemma get_pm_present_pure_witness :
  get_pm (bump 0x10000) 0x1000 3 (World {[ 0x1018 := 0x7003 ]} 0x2000 0 [])
  = Done 0x7000 (World {[ 0x1018 := 0x7003 ]} 0x2000 0 []).
Proof.
  etransitivity.
  - apply (get_pm_present_pure (bump 0x10000) 0x1000 3
             (World {[ 0x1018 := 0x7003 ]} 0x2000 0 [])).
    vm_compute. reflexivity.
  - vm_compute. reflexivity.
Defined.

(** The second call after an allocating first call on entry 3 of the root. *)
Lemma get_pm_idempotent_witness :
  get_pm (bump 0x10000) 0x1000 3
    (World {[ 0x1018 := 0x2003 ]} 0x3000 0 [EvStore 0x1018 0x2003; EvAlloc 0x2000])
  = Done 0x2000
    (World {[ 0x1018 := 0x2003 ]} 0x3000 0 [EvStore 0x1018 0x2003; EvAlloc 0x2000])
  /\ bump 0x10000 0x2000 = Some (0x2000, 0x3000)
  /\ count_allocs [EvStore 0x1018 0x2003; EvAlloc 0x2000] = 1%nat.
Proof.
  apply (get_pm_idempotent (bump 0x10000) 0x1000 3 (World ∅ 0x2000 0 [])
           (World {[ 0x1018 := 0x2003 ]} 0x3000 0 [EvStore 0x1018 0x2003; EvAlloc 0x2000])
           0x2000).
  - reflexivity.
  - vm_compute. reflexivity.
  - split; [lia | reflexivity].
Defined.

(** Two pages at [0x200000] mapped to the frames at [0x300000]. *)
Lemma map_region_maps_witness :
  (exists w',
      map_region (bump 0x10000) 0x1000 3 0x200000 0x300000 2 (World ∅ 0x2000 0 []) = Done tt w'
      /\ wf 0x1000 (bump_owns 0x10000) w'
      /\ forall i, 0 <= i < 2 ->
           translate 0x1000 w' (0x200000 + i * PAGE_SIZE) = Some (0x300000 + i * PAGE_SIZE))
  \/ (exists w',
      map_region (bump 0x10000) 0x1000 3 0x200000 0x300000 2 (World ∅ 0x2000 0 []) = Halted w'
      /\ bump 0x10000 (heap w') = None).
Proof.
  apply (map_region_maps (bump 0x10000) 0x1000 (bump_owns 0x10000)).
  - apply bump_contract.
  - apply bump_boot_wf. lia.
  - lia.
  - lia.
  - reflexivity.
  - lia.
  - unfold PAGE_SIZE. lia.
  - unfold PAGE_SIZE. lia.
  - lia.
Defined.

(** C1 as stated fails: the page-aligned physical address [2^52] does not
    fit the 40-bit frame-number field, and the walk of the page mapped to
    it ends in frame address 0. *)
Lemma map_region_frame_truncated_cex :
  exists w',
    map_region (bump 0x10000) 0x1000 2 0 (2 ^ 52) 1 (World ∅ 0x2000 0 []) = Done tt w'
    /\ translate 0x1000 w' 0 = Some 0
    /\ translate 0x1000 w' 0 <> Some (2 ^ 52).
Proof.
  eexists. split; [vm_compute; reflexivity|].
  split; [vm_compute; reflexivity | vm_compute; discriminate].
Qed.

(** A count of -2 from [0x5000]: the end address [0x3000] is below the start. *)
Lemma map_region_nonpositive_witness :
  map_region (bump 0x10000) 0x1000 1 0x5000 0x5000 (-2) (World ∅ 0x2000 0 [])
  = Done tt (World ∅ 0x2000 0 []).
Proof.
  apply (map_region_nonpositive (bump 0x10000) 0x1000); [lia | lia | unfold PAGE_SIZE; lia | lia].
Defined.

(** C2 as stated fails: the page count of a descriptor is a 64-bit value
    and [map_region_id] takes an [int].  Of a loader-data region of
    [2^32 + 1] pages one page is mapped; the second page of the region
    is not. *)
Lemma map_efi_regions_count_truncated_cex :
  let md := Build_EFI_MEMORY_DESCRIPTOR 2 0x100000 (2 ^ 32 + 1) 15 in
  exists w',
    map_efi_regions (bump 0x100000) 0x1000 (2 ^ 63) 1 2 5 [md] (World ∅ 0x2000 0 [])
    = Done tt w'
    /\ selected (2 ^ 63) 1 2 md = true
    /\ in_region md 0x101000
    /\ translate 0x1000 w' 0x100000 = Some 0x100000
    /\ translate 0x1000 w' 0x101000 = None.
Proof.
  eexists. split; [vm_compute; reflexivity|].
  split; [reflexivity|].
  split; [split; [discriminate | reflexivity]|].
  split; vm_compute; reflexivity.
Qed.

(** A runtime region, a loader-code region and a region of another type
    without the runtime bit ([EFI_MEMORY_RUNTIME] is bit 63, [EfiLoaderCode]
    1 and [EfiLoaderData] 2, as in UEFI). *)
Lemma map_efi_regions_policy_witness :
  (exists w',
      map_efi_regions (bump 0x100000) 0x1000 (2 ^ 63) 1 2 5
        [ Build_EFI_MEMORY_DESCRIPTOR 7 0x100000 2 (2 ^ 63 + 15);
          Build_EFI_MEMORY_DESCRIPTOR 1 0x200000 3 15;
          Build_EFI_MEMORY_DESCRIPTOR 7 0x300000 4 15 ]
        (World ∅ 0x2000 0 []) = Done tt w'
      /\ forall va, 0 <= va < 2 ^ 48 ->
           (covered (2 ^ 63) 1 2
              [ Build_EFI_MEMORY_DESCRIPTOR 7 0x100000 2 (2 ^ 63 + 15);
                Build_EFI_MEMORY_DESCRIPTOR 1 0x200000 3 15;
                Build_EFI_MEMORY_DESCRIPTOR 7 0x300000 4 15 ] va ->
            translate 0x1000 w' va = Some (va - va mod PAGE_SIZE))
           /\ (~ covered (2 ^ 63) 1 2
              [ Build_EFI_MEMORY_DESCRIPTOR 7 0x100000 2 (2 ^ 63 + 15);
                Build_EFI_MEMORY_DESCRIPTOR 1 0x200000 3 15;
                Build_EFI_MEMORY_DESCRIPTOR 7 0x300000 4 15 ] va ->
            translate 0x1000 w' va = None))
  \/ (exists w',
      map_efi_regions (bump 0x100000) 0x1000 (2 ^ 63) 1 2 5
        [ Build_EFI_MEMORY_DESCRIPTOR 7 0x100000 2 (2 ^ 63 + 15);
          Build_EFI_MEMORY_DESCRIPTOR 1 0x200000 3 15;
          Build_EFI_MEMORY_DESCRIPTOR 7 0x300000 4 15 ]
        (World ∅ 0x2000 0 []) = Halted w'
      /\ bump 0x100000 (heap w') = None).
Proof.
  apply (map_efi_regions_policy (bump 0x100000) 0x1000 (2 ^ 63) 1 2
           (bump_owns 0x100000)).
  - apply bump_contract.
  - apply bump_boot_wf. lia.
  - intros va _. apply (bump_boot_wf 0x100000). lia.
  - repeat constructor; intros Hsel; try discriminate Hsel;
      cbv [sane PhysicalStart NumberOfPages PAGE_SIZE]; repeat split;
      try reflexivity; lia.
Defined.

(** The scenario of the three descriptors, run. *)
Example policy_three_descriptors :
  match map_efi_regions (bump 0x100000) 0x1000 (2 ^ 63) 1 2 5
          [ Build_EFI_MEMORY_DESCRIPTOR 7 0x100000 2 (2 ^ 63 + 15);
            Build_EFI_MEMORY_DESCRIPTOR 1 0x200000 3 15;
            Build_EFI_MEMORY_DESCRIPTOR 7 0x300000 4 15 ]
          (World ∅ 0x2000 0 []) with
  | Done _ w' =>
      map (translate 0x1000 w')
        [0x100000; 0x101fff; 0x102000; 0x200000; 0x202abc; 0x203000;
         0x300000; 0x301000; 0x303fff]
      = [Some 0x100000; Some 0x101000; None; Some 0x200000; Some 0x202000; None;
         None; None; None]
  | _ => False
  end.
Proof. vm_compute. reflexivity. Qed.

(** An allocator with two frames: the third table cannot be had. *)
Lemma exhaustion_halts_cleanly_witness :
  exists w',
    setup_paging (bump 0x4000) 0x1000 (2 ^ 63) 1 2 20
      [Build_EFI_MEMORY_DESCRIPTOR 2 0x100000 16 15]
      (Build_Framebuffer 0 0) 0 0 (World ∅ 0x2000 0 []) = Halted w'
    /\ (forall pt pi w0 w0',
          get_pm (bump 0x4000) pt pi w0 = Halted w0' <->
          w0' = w0 /\ bump 0x4000 (heap w0) = None
          /\ Pe.is_present (load (mem w0) (pe_addr pt pi)) = false)
    /\ bump 0x4000 (heap w') = None
    /\ wf 0x1000 (bump_owns 0x4000) w'
    /\ links_allocated 0x1000 w'
    /\ cr3 w' = 0.
Proof.
  eexists. split; [vm_compute; reflexivity|].
  apply (exhaustion_halts_cleanly (bump 0x4000) 0x1000 (2 ^ 63) 1 2 (bump_owns 0x4000) 20
           [Build_EFI_MEMORY_DESCRIPTOR 2 0x100000 16 15]
           (Build_Framebuffer 0 0) 0 0 (World ∅ 0x2000 0 [])).
  - apply bump_contract.
  - apply bump_boot_ok. lia.
  - vm_compute. reflexivity.
Defined.

(** C6 (the code at the failing input).  The one frame the allocator has,
    [0x2000], holds left-over bits in its entry 5 (the defect of C4).
    Mapping the page at [0x140000000] links that frame under entry 0 of
    the root, takes its entry 5 for a link to a table at [0xdead000] and
    halts there, in the exhausted allocator: the state it halts in has a
    Present entry, reachable from the root, that names a frame the
    allocator never handed out. *)
Theorem setup_paging_halt_leaves_stray_link :
  let w := World {[ 0x2028 := 0xdead003 ]} 0x2000 0 [] in
  exists w',
    setup_paging (bump 0x3000) 0x1000 (2 ^ 63) 1 2 5
      [Build_EFI_MEMORY_DESCRIPTOR 2 0x140000000 1 15]
      (Build_Framebuffer 0 0) 0 0 w = Halted w'
    /\ bump 0x3000 (heap w') = None
    /\ descend (mem w') 0x1000 [0; 5] = Some 0xdead000
    /\ allocated (trace w') = [0x2000]
    /\ ~ links_allocated 0x1000 w'.
Proof.
  eexists. split; [vm_compute; reflexivity|].
  split; [vm_compute; reflexivity|].
  split; [vm_compute; reflexivity|].
  split; [vm_compute; reflexivity|].
  intros H.
  assert (Hin : In 0xdead000 [0x2000]).
  { refine (eq_ind _ (In 0xdead000) (allocated_in _ _ (H [0; 5] 0xdead000 _ _ _)) _ _).
    - repeat (apply Forall_cons_2; [unfold PAGE_TABLE_SIZE; lia|]). apply Forall_nil_2.
    - simpl. lia.
    - vm_compute. reflexivity.
    - vm_compute. reflexivity. }
  destruct Hin as [E|[]]. discriminate E.
Qed.

(** The order of [setup_paging] in the end-to-end scenario: with fuel for
    the 16 pages the run ends. *)
Lemma setup_paging_order_witness :
  setup_paging (bump 0x100000) 0x1000 (2 ^ 63) 1 2 20
    [Build_EFI_MEMORY_DESCRIPTOR 2 0x100000 16 15]
    (Build_Framebuffer 0 0) 0 0 (World ∅ 0x2000 7 []) <> OutOfFuel.
Proof.
  destruct (setup_paging_order (bump 0x100000) 0x1000 (2 ^ 63) 1 2 (bump_owns 0x100000) 20
              [Build_EFI_MEMORY_DESCRIPTOR 2 0x100000 16 15]
              (Build_Framebuffer 0 0) 0 0 (World ∅ 0x2000 7 []))
    as (w1 & zs & _ & _ & _ & _ & _ & _ & _ & Hret).
  apply Hret. apply Forall_cons_2; [|apply Forall_nil_2].
  intros _. split; [split; [discriminate | reflexivity] | vm_compute; reflexivity].
Defined.

(** The trace never shrinks along the region loop. *)
Lemma quietly_trace_length (pml4 : Z) (fuel : nat) (vra vrae pra : Z)
    (w w' : world Z) (L : Z) :
  final (map_region_loop (bump L) pml4 fuel vra vrae pra w) = Some w' ->
  (length (trace w) <= length (trace w'))%nat.
Proof.
  intros H. apply quietly_map_region_loop in H.
  destruct H as [_ (evs & -> & _)]. rewrite length_app. lia.
Qed.

(** C10 as stated fails: with [vra = 0] and [np = -1] the end address
    wraps to [2^64 - 4096], the loop is entered, and whatever the fuel the
    call does not return in the state it was entered in. *)
Lemma map_region_negative_wraps_cex :
  ~ exists fuel,
      map_region (bump 0x100000) 0x1000 fuel 0 0 (-1) (World ∅ 0x2000 0 [])
      = Done tt (World ∅ 0x2000 0 []).
Proof.
  intros [fuel H]. unfold map_region in H.
  destruct fuel as [|fuel]; [discriminate H|].
  rewrite map_region_loop_S in H by (vm_compute; reflexivity).
  unfold bind in H.
  destruct (map_page_pml4 (bump 0x100000) 0x1000 0 0 (World ∅ 0x2000 0 []))
    as [[] w1|w1|] eqn:E; try discriminate H.
  vm_compute in E. injection E as <-.
  apply (f_equal final) in H. apply quietly_trace_length in H.
  simpl in H. lia.
Qed.

(** C4 (the code at the failing input).  The allocator hands out the frame
    [0x2000], whose entry 5 holds left-over bits with bit 0 set.  [get_pm]
    links the frame as it is: after the call the entry still holds those
    bits, and the next walker call through the new table reads them as a
    Present entry and returns the address they spell, allocating nothing. *)
Theorem get_pm_links_unzeroed_frame :
  let garbage := 0xdead003 in
  let w := World {[ 0x2028 := garbage ]} 0x2000 0 [] in
  exists w1,
    get_pm (bump 0x100000) 0x1000 0 w = Done 0x2000 w1
    /\ load (mem w1) (pe_addr 0x2000 5) = garbage
    /\ get_pm (bump 0x100000) 0x2000 5 w1 = Done 0xdead000 w1
    /\ count_allocs (trace w1) = 1%nat.
Proof.
  eexists. split; [vm_compute; reflexivity|].
  split; [vm_compute; reflexivity|].
  split; vm_compute; reflexivity.
Qed.

(** The end-to-end scenario of the spec: one loader-data region of 16 pages
    at [0x100000]. *)
Example setup_paging_end_to_end :
  match setup_paging (bump 0x100000) 0x1000 (2 ^ 63) 1 2 20
          [Build_EFI_MEMORY_DESCRIPTOR 2 0x100000 16 15]
          (Build_Framebuffer 0 0) 0 0 (World ∅ 0x2000 7 []) with
  | Done _ w' =>
      map (translate 0x1000 w') [0x100000; 0x10ffff; 0x110000; 0xff000]
      = [Some 0x100000; Some 0x10f000; None; None]
      /\ cr3 w' = 0x1000
      /\ hd_error (trace w') = Some (EvCr3 0x1000)
      /\ count_allocs (trace w') = 3%nat
  | _ => False
  end.
Proof. vm_compute. repeat split; reflexivity. Qed.

(** ** The further theorems at concrete inputs *)

(** Two pages mapped from an all-zero memory. *)
Lemma map_region_only_initialises_witness :
  exists w',
    final (map_region (bump 0x100000) 0x1000 3 0x200000 0x300000 2
             (World ∅ 0x2000 0 [])) = Some w'
    /\ forall a,
         load (mem w') a = load (mem (World (∅ : gmap Z Z) 0x2000 0 [])) a
         \/ exists A, load (mem w') a
                      = Pe.init (load (mem (World (∅ : gmap Z Z) 0x2000 0 [])) a) A.
Proof.
  eexists. split; [vm_compute; reflexivity|].
  apply (map_region_only_initialises (bump 0x100000) 0x1000 3 0x200000 0x300000 2).
  vm_compute. reflexivity.
Defined.

(** A loader-data region over a memory whose cell [0x5000] has the
    User/Supervisor and Execute-Disable bits set. *)
Lemma map_efi_regions_keeps_flags_witness :
  exists w',
    final (map_efi_regions (bump 0x100000) 0x1000 (2 ^ 63) 1 2 5
             [Build_EFI_MEMORY_DESCRIPTOR 2 0x100000 2 15]
             (World {[ 0x5000 := 2 ^ 63 + 5 ]} 0x2000 0 [])) = Some w'
    /\ forall a,
         pe_other_fields (load (mem w') a)
         = pe_other_fields (load (mem (World {[ 0x5000 := 2 ^ 63 + 5 ]} 0x2000 0 [])) a)
         /\ (Pe.is_present
               (load (mem (World {[ 0x5000 := 2 ^ 63 + 5 ]} 0x2000 0 [])) a) = true ->
             Pe.is_present (load (mem w') a) = true).
Proof.
  eexists. split; [vm_compute; reflexivity|].
  apply (map_efi_regions_keeps_flags (bump 0x100000) 0x1000 (2 ^ 63) 1 2 5
           [Build_EFI_MEMORY_DESCRIPTOR 2 0x100000 2 15]).
  vm_compute. reflexivity.
Defined.

(** One page, its physical address misaligned by [0x123]. *)
Lemma map_page_pml4_maps_one_page_witness :
  exists w',
    map_page_pml4 (bump 0x100000) 0x1000 0x200000 0x300123 (World ∅ 0x2000 0 [])
    = Done tt w'
    /\ translate 0x1000 w' 0x200000 = Some (0x300123 mod 2 ^ 52 - 0x300123 mod PAGE_SIZE)
    /\ (forall va, indices va <> indices 0x200000 ->
          translate 0x1000 w' va = translate 0x1000 (World ∅ 0x2000 0 []) va)
    /\ wf 0x1000 (bump_owns 0x100000) w'.
Proof.
  eexists. split; [vm_compute; reflexivity|].
  apply (map_page_pml4_maps_one_page (bump 0x100000) 0x1000 (bump_owns 0x100000)).
  - apply bump_contract.
  - apply (bump_boot_wf 0x100000). lia.
  - vm_compute. reflexivity.
Defined.

(** Two frames only: the page table cannot be had. *)
Lemma map_page_pml4_halt_maps_nothing_witness :
  exists w',
    map_page_pml4 (bump 0x4000) 0x1000 0x200000 0x300000 (World ∅ 0x2000 0 [])
    = Halted w'
    /\ (forall va, translate 0x1000 w' va = translate 0x1000 (World ∅ 0x2000 0 []) va)
    /\ wf 0x1000 (bump_owns 0x4000) w'
    /\ bump 0x4000 (heap w') = None.
Proof.
  eexists. split; [vm_compute; reflexivity|].
  apply (map_page_pml4_halt_maps_nothing (bump 0x4000) 0x1000 (bump_owns 0x4000)
           _ _ 0x200000 0x300000).
  - apply bump_contract.
  - apply (bump_boot_wf 0x4000). lia.
  - vm_compute. reflexivity.
Defined.

(** Address 0 mapped to [0x7000] from an all-zero memory, which puts the
    three upper tables in place, and then mapped again, to [0x9000]. *)
Lemma map_page_pml4_existing_table_witness :
  exists w1,
    map_page_pml4 (bump 0x100000) 0x1000 0 0x7000 (World ∅ 0x2000 0 []) = Done tt w1
    /\ load (mem w1) (pe_addr 0x4000 0) = 0x7003
    /\ map_page_pml4 (bump 0x100000) 0x1000 0 0x9000 w1
       = Done tt (World (<[pe_addr 0x4000 0 := 0x9003]> (mem w1)) (heap w1) (cr3 w1)
                        (EvStore (pe_addr 0x4000 0) 0x9003 :: trace w1)).
Proof.
  pose proof (map_page_pml4_kept (bump 0x100000) 0x1000 (bump_owns 0x100000)
                (World ∅ 0x2000 0 []) 0 0x7000 (bump_contract 0x100000)
                (proj1 (bump_boot_wf 0x100000 ltac:(lia)))) as Hk.
  destruct (map_page_pml4 (bump 0x100000) 0x1000 0 0x7000 (World ∅ 0x2000 0 []))
    as [[] w1|w1|] eqn:E1;
    [|vm_compute in E1; discriminate E1|vm_compute in E1; discriminate E1].
  destruct Hk as [Hwf1 _].
  exists w1. split; [reflexivity|].
  assert (Hleaf : load (mem w1) (pe_addr 0x4000 0) = 0x7003)
    by (vm_compute in E1; injection E1 as <-; vm_compute; reflexivity).
  split; [exact Hleaf|].
  etransitivity.
  - apply (map_page_pml4_existing_table (bump 0x100000) 0x1000 (bump_owns 0x100000)
             w1 0 0x9000 0x4000 Hwf1).
    vm_compute in E1. injection E1 as <-. vm_compute. reflexivity.
  - change (LinAddr.pt (linaddr 0)) with 0. rewrite Hleaf. reflexivity.
Defined.

(** Two pages cost at most six frames (here three). *)
Lemma map_region_allocates_at_most_witness :
  exists w',
    final (map_region (bump 0x100000) 0x1000 3 0x200000 0x300000 2
             (World ∅ 0x2000 0 [])) = Some w'
    /\ (count_allocs (trace w')
        <= count_allocs (trace (World (∅ : gmap Z Z) 0x2000 0 [])) + 3 * Z.to_nat 2)%nat.
Proof.
  eexists. split; [vm_compute; reflexivity|].
  apply (map_region_allocates_at_most (bump 0x100000) 0x1000 3 0x200000 0x300000 2
           (World ∅ 0x2000 0 [])).
  - lia.
  - lia.
  - unfold PAGE_SIZE. lia.
  - vm_compute. reflexivity.
Defined.

(** The pages around a region of two keep their translation. *)
Lemma map_region_leaves_other_pages_witness :
  exists w',
    final (map_region (bump 0x100000) 0x1000 3 0x200000 0x300000 2
             (World ∅ 0x2000 0 [])) = Some w'
    /\ forall va, 0 <= va < 2 ^ 48 ->
         va / PAGE_SIZE < 0x200000 / PAGE_SIZE
         \/ 0x200000 / PAGE_SIZE + 2 <= va / PAGE_SIZE ->
         translate 0x1000 w' va = translate 0x1000 (World ∅ 0x2000 0 []) va.
Proof.
  eexists. split; [vm_compute; reflexivity|].
  apply (map_region_leaves_other_pages (bump 0x100000) 0x1000 (bump_owns 0x100000)
           3 0x200000 0x300000 2).
  - apply bump_contract.
  - apply (bump_boot_wf 0x100000). lia.
  - lia.
  - lia.
  - unfold PAGE_SIZE. lia.
  - vm_compute. reflexivity.
Defined.

(** A count of -1 from address 0, halted by an allocator with two frames. *)
Lemma map_region_keeps_tables_witness :
  exists w',
    final (map_region (bump 0x4000) 0x1000 5 0 (2 ^ 52 + 0x123) (-1)
             (World ∅ 0x2000 0 [])) = Some w'
    /\ wf 0x1000 (bump_owns 0x4000) w'
    /\ (links_allocated 0x1000 (World ∅ 0x2000 0 []) -> links_allocated 0x1000 w').
Proof.
  eexists. split; [vm_compute; reflexivity|].
  apply (map_region_keeps_tables (bump 0x4000) 0x1000 (bump_owns 0x4000)
           5 0 (2 ^ 52 + 0x123) (-1)).
  - apply bump_contract.
  - apply (bump_boot_wf 0x4000). lia.
  - vm_compute. reflexivity.
Defined.

(** Two pages need two turns. *)
Lemma map_region_terminates_witness :
  map_region (bump 0x100000) 0x1000 3 0x5000 0x5000 2 (World ∅ 0x2000 0 [])
  <> OutOfFuel
  /\ Z.max 0 ((u64 (0x5000 + 2 * PAGE_SIZE) - 0x5000) / PAGE_SIZE) < 2 ^ 52.
Proof.
  apply (map_region_terminates (bump 0x100000) 0x1000 (bump_owns 0x100000) 3 0x5000 0x5000 2).
  - lia.
  - vm_compute. reflexivity.
Defined.

(** Two descriptors of other types without the runtime bit. *)
Lemma map_efi_regions_nothing_selected_witness :
  map_efi_regions (bump 0x100000) 0x1000 (2 ^ 63) 1 2 5
    [Build_EFI_MEMORY_DESCRIPTOR 7 0x100000 2 15;
     Build_EFI_MEMORY_DESCRIPTOR 3 0x200000 3 15]
    (World ∅ 0x2000 0 [])
  = Done tt (World ∅ 0x2000 0 []).
Proof.
  apply (map_efi_regions_nothing_selected (bump 0x100000) 0x1000 (2 ^ 63) 1 2).
  repeat (apply Forall_cons_2; [reflexivity|]). apply Forall_nil_2.
Defined.

(** A runtime region and a loader-code region, in both orders. *)
Lemma map_efi_regions_order_irrelevant_witness :
  exists w1 w2,
    map_efi_regions (bump 0x100000) 0x1000 (2 ^ 63) 1 2 5
      [Build_EFI_MEMORY_DESCRIPTOR 7 0x100000 2 (2 ^ 63);
       Build_EFI_MEMORY_DESCRIPTOR 1 0x40000000 3 15]
      (World ∅ 0x2000 0 []) = Done tt w1
    /\ map_efi_regions (bump 0x100000) 0x1000 (2 ^ 63) 1 2 5
      [Build_EFI_MEMORY_DESCRIPTOR 1 0x40000000 3 15;
       Build_EFI_MEMORY_DESCRIPTOR 7 0x100000 2 (2 ^ 63)]
      (World ∅ 0x2000 0 []) = Done tt w2
    /\ forall va, 0 <= va < 2 ^ 48 ->
         translate 0x1000 w1 va = translate 0x1000 w2 va.
Proof.
  eexists. eexists. split; [vm_compute; reflexivity|].
  split; [vm_compute; reflexivity|].
  apply (map_efi_regions_order_irrelevant (bump 0x100000) 0x1000 (2 ^ 63) 1 2
           (bump_owns 0x100000) 5
           [Build_EFI_MEMORY_DESCRIPTOR 7 0x100000 2 (2 ^ 63);
            Build_EFI_MEMORY_DESCRIPTOR 1 0x40000000 3 15]
           [Build_EFI_MEMORY_DESCRIPTOR 1 0x40000000 3 15;
            Build_EFI_MEMORY_DESCRIPTOR 7 0x100000 2 (2 ^ 63)]
           (World ∅ 0x2000 0 [])).
  - apply bump_contract.
  - apply (bump_boot_wf 0x100000). lia.
  - intros va _. apply (bump_boot_wf 0x100000). lia.
  - repeat (apply Forall_cons_2;
              [ intros _; cbv [sane PhysicalStart NumberOfPages PAGE_SIZE];
                repeat split; try reflexivity; lia |]).
    apply Forall_nil_2.
  - apply perm_swap.
  - vm_compute. reflexivity.
  - vm_compute. reflexivity.
Defined.

(** A framebuffer of exactly two pages: three pages are mapped. *)
Lemma map_framebuffer_covers_witness :
  exists w',
    map_framebuffer (bump 0x100000) 0x1000 5 (Build_Framebuffer 0x80000000 0x2000)
      (World ∅ 0x2000 0 []) = Done tt w'
    /\ 0x80000000 + 0x2000 < 0x80000000 + (0x2000 / PAGE_SIZE + 1) * PAGE_SIZE
    /\ forall a,
         0x80000000 <= a < 0x80000000 + (0x2000 / PAGE_SIZE + 1) * PAGE_SIZE ->
         translate 0x1000 w' a = Some (a - a mod PAGE_SIZE).
Proof.
  eexists. split; [vm_compute; reflexivity|].
  apply (map_framebuffer_covers (bump 0x100000) 0x1000 (bump_owns 0x100000) 5
           (Build_Framebuffer 0x80000000 0x2000) (World ∅ 0x2000 0 [])).
  - apply bump_contract.
  - apply (bump_boot_wf 0x100000). lia.
  - simpl. lia.
  - reflexivity.
  - simpl. lia.
  - vm_compute. reflexivity.
  - vm_compute. discriminate.
  - vm_compute. reflexivity.
  - vm_compute. reflexivity.
Defined.

(** A kernel of two pages and a half. *)
Lemma map_kernel_whole_pages_witness :
  exists w',
    map_kernel (bump 0x100000) 0x1000 5 0x40000000 0x100000 0x2800
      (World ∅ 0x2000 0 []) = Done tt w'
    /\ (forall i, 0 <= i < 0x2800 / PAGE_SIZE ->
          translate 0x1000 w' (0x40000000 + i * PAGE_SIZE)
          = Some (0x100000 + i * PAGE_SIZE))
    /\ (forall a,
          0x40000000 + 0x2800 / PAGE_SIZE * PAGE_SIZE <= a < 0x40000000 + 0x2800 ->
          translate 0x1000 w' a = translate 0x1000 (World ∅ 0x2000 0 []) a).
Proof.
  eexists. split; [vm_compute; reflexivity|].
  apply (map_kernel_whole_pages (bump 0x100000) 0x1000 (bump_owns 0x100000) 5
           0x40000000 0x100000 0x2800 (World ∅ 0x2000 0 [])).
  - apply bump_contract.
  - apply (bump_boot_wf 0x100000). lia.
  - lia.
  - reflexivity.
  - lia.
  - reflexivity.
  - lia.
  - vm_compute. reflexivity.
  - lia.
  - lia.
  - vm_compute. reflexivity.
  - vm_compute. reflexivity.
Defined.

(** A kernel of 4095 bytes. *)
Lemma map_kernel_below_one_page_witness :
  map_kernel (bump 0x100000) 0x1000 1 0x40000000 0x100000 4095 (World ∅ 0x2000 0 [])
  = Done tt (World ∅ 0x2000 0 []).
Proof.
  apply (map_kernel_below_one_page (bump 0x100000) 0x1000 1);
    [lia | unfold PAGE_SIZE; lia | lia].
Defined.

(** The end-to-end scenario again, the root holding left-over links. *)
Lemma setup_paging_maps_selected_witness :
  (exists w',
      setup_paging (bump 0x100000) 0x1000 (2 ^ 63) 1 2 20
        [Build_EFI_MEMORY_DESCRIPTOR 2 0x100000 16 15]
        (Build_Framebuffer 0 0) 0 0 (World {[ 0x1008 := 0x5003 ]} 0x2000 7 [])
      = Done tt w'
      /\ cr3 w' = u64 0x1000 /\ wf 0x1000 (bump_owns 0x100000) w'
      /\ forall va, 0 <= va < 2 ^ 48 ->
           (covered (2 ^ 63) 1 2 [Build_EFI_MEMORY_DESCRIPTOR 2 0x100000 16 15] va ->
            translate 0x1000 w' va = Some (va - va mod PAGE_SIZE))
           /\ (~ covered (2 ^ 63) 1 2 [Build_EFI_MEMORY_DESCRIPTOR 2 0x100000 16 15] va ->
               translate 0x1000 w' va = None))
  \/ (exists w',
      setup_paging (bump 0x100000) 0x1000 (2 ^ 63) 1 2 20
        [Build_EFI_MEMORY_DESCRIPTOR 2 0x100000 16 15]
        (Build_Framebuffer 0 0) 0 0 (World {[ 0x1008 := 0x5003 ]} 0x2000 7 [])
      = Halted w'
      /\ bump 0x100000 (heap w') = None
      /\ cr3 w' = cr3 (World ({[ 0x1008 := 0x5003 ]} : gmap Z Z) 0x2000 7 [])).
Proof.
  apply (setup_paging_maps_selected (bump 0x100000) 0x1000 (2 ^ 63) 1 2
           (bump_owns 0x100000)).
  - apply bump_contract.
  - split; [split; [lia|reflexivity]|].
    intros f (H1 & H2 & H3). simpl in *. unfold frame_ok, PAGE_SIZE in *.
    split; [split; [lia|]|split; [lia|]].
    + revert H3. Z.div_mod_to_equations. lia.
    + intros i Hi. apply load_insert_other.
      unfold pe_addr, PAGE_TABLE_SIZE in *. lia.
  - repeat (apply Forall_cons_2;
              [ intros _; cbv [sane PhysicalStart NumberOfPages PAGE_SIZE];
                repeat split; try reflexivity; lia |]).
    apply Forall_nil_2.
Defined.

(** No descriptor at all. *)
Lemma setup_paging_nothing_selected_witness :
  exists w',
    setup_paging (bump 0x100000) 0x1000 (2 ^ 63) 1 2 1 []
      (Build_Framebuffer 0 0) 0 0 (World ∅ 0x2000 0 []) = Done tt w'
    /\ cr3 w' = u64 0x1000 /\ heap w' = heap (World (∅ : gmap Z Z) 0x2000 0 [])
    /\ forall va, translate 0x1000 w' va = None.
Proof.
  apply (setup_paging_nothing_selected (bump 0x100000) 0x1000 (2 ^ 63) 1 2).
  apply Forall_nil_2.
Defined.

(** Six bytes from the odd address [0x3005], filled with [0xab] (the
    argument [0x1ab] is cut to a byte); the root is at [0x1000]. *)
Lemma memset_fills_range_witness :
  exists w',
    memset 0x1000 0x3005 0x1ab 6 (World ({[ 0x3000 := 2 ^ 64 - 1 ]} : gmap Z Z) 0x2000 0 [])
    = Done 0x3005 w'
    /\ heap w' = heap (World ({[ 0x3000 := 2 ^ 64 - 1 ]} : gmap Z Z) 0x2000 0 [])
    /\ cr3 w' = cr3 (World ({[ 0x3000 := 2 ^ 64 - 1 ]} : gmap Z Z) 0x2000 0 [])
    /\ (forall a, 0x3005 <= a < 0x3005 + 6 ->
          byte_at 0x1000 (mem w') a = 0x1ab mod 256)
    /\ (forall a, ~ 0x3005 <= a < 0x3005 + 6 ->
          byte_at 0x1000 (mem w') a
          = byte_at 0x1000 (mem (World ({[ 0x3000 := 2 ^ 64 - 1 ]} : gmap Z Z) 0x2000 0 [])) a).
Proof.
  apply (memset_fills_range 0x1000 0x3005 0x1ab 6). lia.
Defined.

(** The same call on the cells: the three high bytes of the cell at
    [0x3000] and the three low bytes of the cell at [0x3008] are
    written. *)
Example memset_across_cells :
  match memset 0x1000 0x3005 0x1ab 6
          (World ({[ 0x3000 := 2 ^ 64 - 1 ]} : gmap Z Z) 0x2000 0 []) with
  | Done r w' =>
      r = 0x3005
      /\ load (mem w') 0x3000 = 0xababab_ffffffffff
      /\ load (mem w') 0x3008 = 0xababab
      /\ length (trace w') = 6%nat
  | _ => False
  end.
Proof. vm_compute. repeat split; reflexivity. Qed.

(** A Present entry holding all ones. *)
Lemma get_pm_hit_is_frame_witness :
  exists c w',
    get_pm (bump 0x100000) 0x1000 3
      (World {[ 0x1018 := 2 ^ 64 - 1 ]} 0x2000 0 []) = Done c w'
    /\ 0 <= c < 2 ^ 52 /\ c mod PAGE_SIZE = 0.
Proof.
  eexists. eexists. split; [vm_compute; reflexivity|].
  apply (get_pm_hit_is_frame (bump 0x100000) 0x1000 3 _
           (World {[ 0x1018 := 2 ^ 64 - 1 ]} 0x2000 0 [])
           (World {[ 0x1018 := 2 ^ 64 - 1 ]} 0x2000 0 []));
    vm_compute; reflexivity.
Defined.

(** The last page of the address space. *)
Lemma map_region_end_wraps_witness :
  map_region (bump 0x100000) 0x1000 1 (2 ^ 64 - 4096) 0x5000 1 (World ∅ 0x2000 0 [])
  = Done tt (World ∅ 0x2000 0 []).
Proof.
  apply (map_region_end_wraps (bump 0x100000) 0x1000 1 (2 ^ 64 - 4096) 0x5000 1);
    [lia | unfold PAGE_SIZE; lia | lia].
Defined.

(** Two pages mapped, then mapped again to other frames by an allocator
    that has no frame left. *)
Lemma map_region_remap_allocates_nothing_witness :
  exists w1 w',
    map_region (bump 0x5000) 0x1000 3 0x200000 0x300000 2 (World ∅ 0x2000 0 [])
    = Done tt w1
    /\ bump 0x5000 (heap w1) = None
    /\ map_region (bump 0x5000) 0x1000 3 0x200000 0x700000 2 w1 = Done tt w'
    /\ heap w' = heap w1
    /\ count_allocs (trace w') = count_allocs (trace w1).
Proof.
  pose proof (map_region_loop_kept (bump 0x5000) 0x1000 (bump_owns 0x5000) 3
                0x200000 (u64 (0x200000 + 2 * PAGE_SIZE)) 0x300000
                (World ∅ 0x2000 0 []) (bump_contract 0x5000)
                (proj1 (bump_boot_wf 0x5000 ltac:(lia)))) as Hk.
  pose proof (map_region_translates (bump 0x5000) 0x1000 (bump_owns 0x5000) 3
                0x200000 0x300000 2 (World ∅ 0x2000 0 [])) as Ht.
  unfold map_region in Ht.
  change (map_region (bump 0x5000) 0x1000 3 0x200000 0x300000 2 (World ∅ 0x2000 0 []))
    with (map_region_loop (bump 0x5000) 0x1000 3 0x200000
            (u64 (0x200000 + 2 * PAGE_SIZE)) 0x300000 (World ∅ 0x2000 0 [])).
  destruct (map_region_loop (bump 0x5000) 0x1000 3 0x200000
              (u64 (0x200000 + 2 * PAGE_SIZE)) 0x300000 (World ∅ 0x2000 0 []))
    as [[] w1|w1|] eqn:E1;
    [|vm_compute in E1; discriminate E1|vm_compute in E1; discriminate E1].
  destruct Hk as [Hwf1 _].
  specialize (fun w' => Ht w' (bump_contract 0x5000)
                (proj1 (bump_boot_wf 0x5000 ltac:(lia)))
                ltac:(lia) ltac:(lia) eq_refl ltac:(lia)
                ltac:(unfold PAGE_SIZE; lia) ltac:(unfold PAGE_SIZE; lia) ltac:(lia)).
  specialize (Ht w1 eq_refl).
  exists w1.
  destruct (map_region_remap_allocates_nothing (bump 0x5000) 0x1000 (bump_owns 0x5000)
              3 0x200000 0x700000 2 w1 (bump_contract 0x5000) Hwf1)
    as (w' & Hrun & Hh & Ha).
  - lia.
  - lia.
  - unfold PAGE_SIZE. lia.
  - lia.
  - intros i Hi. rewrite Ht by assumption. discriminate.
  - exists w'. split; [reflexivity|].
    split; [vm_compute in E1; injection E1 as <-; vm_compute; reflexivity|].
    split; [assumption|]. split; assumption.
Defined.

(** Two pages mapped to other frames, then the policy over them. *)
Lemma map_efi_regions_never_unmaps_witness :
  exists w1 w',
    map_region (bump 0x100000) 0x1000 3 0x200000 0x300000 2 (World ∅ 0x2000 0 [])
    = Done tt w1
    /\ final (map_efi_regions (bump 0x100000) 0x1000 (2 ^ 63) 1 2 5
                [Build_EFI_MEMORY_DESCRIPTOR 2 0x201000 3 15] w1) = Some w'
    /\ forall va, translate 0x1000 w1 va <> None -> translate 0x1000 w' va <> None.
Proof.
  pose proof (map_region_loop_kept (bump 0x100000) 0x1000 (bump_owns 0x100000) 3
                0x200000 (u64 (0x200000 + 2 * PAGE_SIZE)) 0x300000
                (World ∅ 0x2000 0 []) (bump_contract 0x100000)
                (proj1 (bump_boot_wf 0x100000 ltac:(lia)))) as Hk.
  change (map_region (bump 0x100000) 0x1000 3 0x200000 0x300000 2 (World ∅ 0x2000 0 []))
    with (map_region_loop (bump 0x100000) 0x1000 3 0x200000
            (u64 (0x200000 + 2 * PAGE_SIZE)) 0x300000 (World ∅ 0x2000 0 [])).
  destruct (map_region_loop (bump 0x100000) 0x1000 3 0x200000
              (u64 (0x200000 + 2 * PAGE_SIZE)) 0x300000 (World ∅ 0x2000 0 []))
    as [[] w1|w1|] eqn:E1;
    [|vm_compute in E1; discriminate E1|vm_compute in E1; discriminate E1].
  destruct Hk as [Hwf1 _].
  vm_compute in E1. injection E1 as <-.
  eexists. eexists. split; [reflexivity|]. split; [vm_compute; reflexivity|].
  apply (map_efi_regions_never_unmaps (bump 0x100000) 0x1000 (2 ^ 63) 1 2
           (bump_owns 0x100000) 5 [Build_EFI_MEMORY_DESCRIPTOR 2 0x201000 3 15]).
  - apply bump_contract.
  - exact Hwf1.
  - vm_compute. reflexivity.
Defined.
